(** * venom: field model, wire codec, repeated-field views and schema validation

    A shallow embedding of [venom/fields.py] and
    [venom/serialization/__init__.py], together with the parts of the
    message, converter and validation modules that these two files call.

    Python values are an inductive type, exceptions are a second result
    constructor, and every Python operation the code applies to a value of
    unknown shape ([in], indexing, iteration, [.items()]) is written out for
    each shape the value can have. *)

From Stdlib Require Import ZArith Ascii String Floats.SpecFloat.
From stdpp Require Import base tactics option list strings pretty gmap.

Set Warnings "-register-all".
Local Open Scope string_scope.
Local Open Scope Z_scope.
Local Open Scope list_scope.

(** ** Exceptions and outcomes *)

(** A step of the path a validation failure reports. *)
Inductive step :=
| Attr (name : string)
| Index (i : nat).

Inductive exn :=
| KeyError (key : string)
| IndexError
| ValueError
| TypeError
| AttributeError
| AssertionError
| OverflowError
| RecursionError
| RuntimeError (msg : string)
| ImportError (module_name : string)
| NotImplementedError (msg : string)
| ValidationError (msg : string) (path : list step).

Inductive outcome (A : Type) :=
| Ok (a : A)
| Raise (e : exn).
Arguments Ok {A} a.
Arguments Raise {A} e.

Definition outcome_bind {A B} (f : A → outcome B) (m : outcome A) : outcome B :=
  match m with
  | Ok a => f a
  | Raise e => Raise e
  end.

#[global] Instance outcome_ret : MRet outcome := λ A a, Ok a.
#[global] Instance outcome_mbind : MBind outcome := λ A B f m, outcome_bind f m.
#[global] Instance outcome_fmap : FMap outcome :=
  λ A B f m, outcome_bind (λ a, Ok (f a)) m.

Definition raises {A} (m : outcome A) : Prop := ∃ e, m = Raise e.

(** ** Python values

    Mappings (a [dict], the store of a message) keep their entries in
    insertion order, as Python does; a message carries the name of its
    class. An [int] is unbounded and a [float] is a binary64 number. *)

Inductive value :=
| VNone
| VBool (b : bool)
| VInt (n : Z)
| VFloat (x : spec_float)
| VStr (s : string)
| VBytes (s : string)
| VList (l : list value)
| VDict (d : list (string * value))
| VMsg (cls : string) (values : list (string * value)).

(** Modelled from the spec: [Message] of venom.message, which is not among
    the sources. An instance keeps the values that were set in a store keyed
    by field name and is a mapping over that store: [in], indexing,
    assignment, iteration and [items()] are those of the store. An instance
    made without arguments has nothing stored. *)
Definition Message_new (cls : string) : value := VMsg cls [].

(** *** Insertion-ordered mappings *)

Fixpoint dict_get {A} (k : string) (d : list (string * A)) : option A :=
  match d with
  | [] => None
  | (k', v) :: d' => if decide (k' = k) then Some v else dict_get k d'
  end.

(** [d[k] = v]: an existing key keeps its position, a new one goes last. *)
Fixpoint dict_set {A} (k : string) (v : A) (d : list (string * A)) : list (string * A) :=
  match d with
  | [] => [(k, v)]
  | (k', v') :: d' =>
      if decide (k' = k) then (k, v) :: d' else (k', v') :: dict_set k v d'
  end.

Definition dict_has {A} (k : string) (d : list (string * A)) : bool :=
  bool_decide (is_Some (dict_get k d)).

Definition dict_keys {A} (d : list (string * A)) : list string := d.*1.

(** A dict display or comprehension: entries are stored one after the other. *)
Definition dict_of_list {A} (l : list (string * A)) : list (string * A) :=
  foldl (λ d kv, dict_set kv.1 kv.2 d) [] l.

(** *** The operations the codec applies to a value

    The codec does not test what it is given: it applies these operations
    and lets them raise. *)

Fixpoint is_substring (k s : string) : bool :=
  String.prefix k s ||
  match s with
  | EmptyString => false
  | String _ s' => is_substring k s'
  end.

Definition is_str (k : string) (v : value) : bool :=
  match v with
  | VStr s => bool_decide (s = k)
  | _ => false
  end.

(** [k in v] for a string [k]. *)
Definition py_contains (k : string) (v : value) : outcome bool :=
  match v with
  | VStr s => Ok (is_substring k s)
  | VList l => Ok (existsb (is_str k) l)
  | VDict d => Ok (dict_has k d)
  | VMsg _ d => Ok (dict_has k d)
  | VNone | VBool _ | VInt _ | VFloat _ | VBytes _ => Raise TypeError
  end.

(** [v[k]] for a string [k]. *)
Definition py_getitem (v : value) (k : string) : outcome value :=
  match v with
  | VDict d | VMsg _ d =>
      match dict_get k d with
      | Some x => Ok x
      | None => Raise (KeyError k)
      end
  | _ => Raise TypeError
  end.

(** [v[k] = x]. *)
Definition py_setitem (v : value) (k : string) (x : value) : outcome value :=
  match v with
  | VDict d => Ok (VDict (dict_set k x d))
  | VMsg c d => Ok (VMsg c (dict_set k x d))
  | _ => Raise TypeError
  end.

Fixpoint chars (s : string) : list string :=
  match s with
  | EmptyString => []
  | String a s' => String a EmptyString :: chars s'
  end.

Fixpoint byte_values (s : string) : list Z :=
  match s with
  | EmptyString => []
  | String a s' => Z.of_nat (Ascii.nat_of_ascii a) :: byte_values s'
  end.

(** [for item in v]. *)
Definition py_iter (v : value) : outcome (list value) :=
  match v with
  | VList l => Ok l
  | VStr s => Ok (VStr <$> chars s)
  | VBytes s => Ok (VInt <$> byte_values s)
  | VDict d | VMsg _ d => Ok (VStr <$> dict_keys d)
  | VNone | VBool _ | VInt _ | VFloat _ => Raise TypeError
  end.

(** [v.items()]. *)
Definition py_items (v : value) : outcome (list (string * value)) :=
  match v with
  | VDict d | VMsg _ d => Ok d
  | _ => Raise AttributeError
  end.

(** [float(n)] for an [int]: the nearest binary64 number, ties to even, and
    [OverflowError] when that is not finite. *)
Definition py_float (n : Z) : outcome spec_float :=
  match binary_normalize 53 1024 n 0 false with
  | S754_infinity _ | S754_nan => Raise OverflowError
  | x => Ok x
  end.

(** The integer a float stands for, when it stands for one. *)
Definition float_is_integer (x : spec_float) (n : Z) : Prop :=
  match x with
  | S754_zero _ => n = 0
  | S754_finite s m e =>
      if decide (0 ≤ e) then cond_Zopp s (Z.pos m) * 2 ^ e = n
      else cond_Zopp s (Z.pos m) = n * 2 ^ (- e)
  | S754_infinity _ | S754_nan => False
  end.

(** ** The field model ([venom/fields.py]) *)

(** [FieldDescriptor.__init__(name, json_name)]. *)
Record FieldDescriptor := {
  _name : option string;
  _json_name : option string;
}.

(** Modelled from the spec: [Schema] of venom.validation, which is not among
    the sources: bounds on the length of a string and on the number of items
    of a repeated field. *)
Record Schema := {
  min_length : option nat;
  max_length : option nat;
  min_items : option nat;
  max_items : option nat;
}.

(** [AttributeDict(options)]: the keyword arguments a field was given beyond
    the named ones; [schema] is the one the validator reads. *)
Record Options := {
  schema : option Schema;
  extra : list (string * value);
}.

Definition no_options : Options := {| schema := None; extra := [] |}.

(** A type hint: a class, [typing.Any], or [typing.List], bare or
    subscripted. *)
Inductive hint_ (T : Type) :=
| HType (t : T)
| HAny
| HList (arg : option (hint_ T)).
Arguments HType {T} t.
Arguments HAny {T}.
Arguments HList {T} arg.

(** Modelled from the spec: [Converter] of venom.converter, which is not
    among the sources: the wire type, the native type, and the two
    transforms, under the names the fields and the codec call them by. *)
Record Converter_ (T : Type) := {
  wire : T;
  python : hint_ T;
  format : value → outcome value;
  convert : value → outcome value;
}.
Arguments wire {T} c.
Arguments python {T} c.
Arguments format {T} c v.
Arguments convert {T} c v.

(** Classes that can be the type of a field, and the four kinds of field.
    [TFloat32] and [TFloat64] are [float32] and [float64] of venom.types;
    [TClass] is any class that derives neither from [Message] nor from
    [list], and [new] is what calling it without arguments gives. A
    declared type is a class or the qualified name of one. A subclass of
    [Field] or of [ConverterField] is a [Field] to the codec, which
    dispatches on the exact class. *)
Inductive pytype :=
| TBool
| TInt
| TFloat
| TStr
| TBytes
| TFloat32
| TFloat64
| TMessage (name : string) (__fields__ : list (string * field))
| TClass (name : string) (new : outcome value)
with field :=
| Field (d : FieldDescriptor) (_type : pytype + string)
    (_default : value) (options : Options)
| ConverterField (d : FieldDescriptor) (converter : Converter_ pytype)
    (_default : value) (options : Options)
| RepeatField (d : FieldDescriptor) (items : field) (options : Options)
| MapField (d : FieldDescriptor) (values : field) (options : Options).

Abbreviation hint := (hint_ pytype).
Abbreviation Converter := (Converter_ pytype).

Definition descriptor (f : field) : FieldDescriptor :=
  match f with
  | Field d _ _ _ | ConverterField d _ _ _ | RepeatField d _ _ | MapField d _ _ => d
  end.

Definition field_options (f : field) : Options :=
  match f with
  | Field _ _ _ o | ConverterField _ _ _ o | RepeatField _ _ o | MapField _ _ o => o
  end.

(** [FieldDescriptor.name]. *)
Definition name (f : field) : option string := _name (descriptor f).

(** The [default] a plain or converter field was declared with, [None] when
    it was declared with none. *)
Definition _default (f : field) : value :=
  match f with
  | Field _ _ d _ | ConverterField _ _ d _ => d
  | RepeatField _ _ _ | MapField _ _ _ => VNone
  end.

(** [isinstance(f, Field)]: plain and converter fields. *)
Definition is_Field (f : field) : bool :=
  match f with
  | Field _ _ _ _ | ConverterField _ _ _ _ => true
  | RepeatField _ _ _ | MapField _ _ _ => false
  end.

(** [FieldDescriptor.json_name]; [camelcase] is venom.util's. *)
Definition json_name (camelcase : option string → outcome string) (f : field)
  : outcome string :=
  match _json_name (descriptor f) with
  | None => camelcase (name f)
  | Some j => Ok j
  end.

(** *** [Field.type] *)

(** ['.' in s]. *)
Fixpoint contains_dot (s : string) : bool :=
  match s with
  | EmptyString => false
  | String a s' => Ascii.eqb a "."%char || contains_dot s'
  end.

(** [s.rsplit('.', 1)] when ['.' in s]. *)
Fixpoint rsplit_dot (s : string) : option (string * string) :=
  match s with
  | EmptyString => None
  | String a s' =>
      match rsplit_dot s' with
      | Some (m, c) => Some (String a m, c)
      | None => if Ascii.eqb a "."%char then Some (EmptyString, s') else None
      end
  end.

(** The importable modules and their attributes. *)
Definition modules := list (string * list (string * pytype)).

Definition import_module (sys_modules : modules) (m : string)
  : outcome (list (string * pytype)) :=
  match m with
  | EmptyString => Raise ValueError
  | String a _ =>
      if Ascii.eqb a "."%char then Raise TypeError
      else match dict_get m sys_modules with
           | Some md => Ok md
           | None => Raise (ImportError m)
           end
  end.

Definition getattr (md : list (string * pytype)) (c : string) : outcome pytype :=
  match dict_get c md with
  | Some t => Ok t
  | None => Raise AttributeError
  end.

(** [repr] of a plain field declared by a type name. *)
Definition repr_Field (d : FieldDescriptor) (s : string) : string :=
  match _name d with
  | None | Some EmptyString => "<Field '" +:+ s +:+ "'>"
  | Some n => "<Field " +:+ n +:+ ":'" +:+ s +:+ "'>"
  end.

(** The body of [Field.type]. A converter field was initialised with its
    converter's wire type; repeated and map fields have no such attribute. *)
Definition resolve_type (sys_modules : modules) (f : field) : outcome pytype :=
  match f with
  | Field _ (inl t) _ _ => Ok t
  | Field d (inr s) _ _ =>
      match rsplit_dot s with
      | Some (module_name, class_name) =>
          md ← import_module sys_modules module_name;
          getattr md class_name
      | None => Raise (RuntimeError ("Unable to resolve: " +:+ s +:+ " in " +:+ repr_Field d s))
      end
  | ConverterField _ c _ _ => Ok (wire c)
  | RepeatField _ _ _ | MapField _ _ _ => Raise AttributeError
  end.

(** Modelled from the spec: [cached_property] of venom.util, under which
    [Field.type] is declared. The spec has the result of resolution cached
    after the first success: [cache] is the field object's slot for it, read
    before the body runs and filled when the body returns. *)
Definition Field_type (sys_modules : modules) (f : field) (cache : option pytype)
  : outcome pytype * option pytype :=
  match cache with
  | Some t => (Ok t, cache)
  | None =>
      match resolve_type sys_modules f with
      | Ok t => (Ok t, Some t)
      | Raise e => (Raise e, None)
      end
  end.

(** Calling a class without arguments: the zero of a scalar type, a message
    with nothing stored. *)
Definition type_call (t : pytype) : outcome value :=
  match t with
  | TBool => Ok (VBool false)
  | TInt => Ok (VInt 0)
  | TFloat | TFloat32 | TFloat64 => Ok (VFloat (S754_zero false))
  | TStr => Ok (VStr EmptyString)
  | TBytes => Ok (VBytes EmptyString)
  | TMessage n _ => Ok (Message_new n)
  | TClass _ new => new
  end.

(** [Field.default], and [FieldDescriptor.default] for the other kinds. *)
Definition Field_default (sys_modules : modules) (f : field) (cache : option pytype)
  : outcome value * option pytype :=
  match f with
  | Field _ _ d _ | ConverterField _ _ d _ =>
      match d with
      | VNone =>
          let '(t, cache') := Field_type sys_modules f cache in
          (t ≫= type_call, cache')
      | _ => (Ok d, cache)
      end
  | RepeatField _ _ _ | MapField _ _ _ => (Ok VNone, cache)
  end.

(** *** [Repeat] and field inference *)

(** The field classes that take no positional argument. *)
Inductive field_class :=
| String_ | Bytes_ | Bool_ | Int32_ | Int64_ | Float32_ | Float64_.

Definition unnamed : FieldDescriptor := {| _name := None; _json_name := None |}.

Definition instantiate (k : field_class) : field :=
  Field unnamed
    (inl match k with
         | String_ => TStr
         | Bytes_ => TBytes
         | Bool_ => TBool
         | Int32_ | Int64_ => TInt
         | Float32_ | Float64_ => TFloat
         end) VNone no_options.

(** What [Repeat] accepts: a field class, a field, or a type. *)
Inductive items_arg :=
| ArgFieldClass (k : field_class)
| ArgField (f : field)
| ArgType (t : pytype + string).

Definition Repeat (items : items_arg) (name : option string) : field :=
  let items :=
    match items with
    | ArgFieldClass k => instantiate k
    | ArgField f => f
    | ArgType t => Field unnamed t VNone no_options
    end in
  RepeatField {| _name := name; _json_name := None |} items no_options.

(** Identity of classes, by qualified name. *)
Definition type_name (t : pytype) : string :=
  match t with
  | TBool => "bool"
  | TInt => "int"
  | TFloat => "float"
  | TStr => "str"
  | TBytes => "bytes"
  | TFloat32 => "venom.types.float32"
  | TFloat64 => "venom.types.float64"
  | TMessage n _ => n
  | TClass n _ => n
  end.

Definition type_eqb (t u : pytype) : bool :=
  bool_decide (type_name t = type_name u).

Fixpoint hint_eqb (h k : hint) : bool :=
  match h, k with
  | HType t, HType u => type_eqb t u
  | HAny, HAny => true
  | HList None, HList None => true
  | HList (Some a), HList (Some b) => hint_eqb a b
  | _, _ => false
  end.

(** [hint in (bool, int, float, str, bytes)]. *)
Definition is_scalar_hint (h : hint) : bool :=
  existsb (hint_eqb h) [HType TBool; HType TInt; HType TFloat; HType TStr; HType TBytes].

Fixpoint hint_str (h : hint) : string :=
  match h with
  | HType t => "<class '" +:+ type_name t +:+ "'>"
  | HAny => "typing.Any"
  | HList None => "typing.List"
  | HList (Some a) => "typing.List[" +:+ hint_str a +:+ "]"
  end.

Definition is_message (t : pytype) : bool :=
  match t with
  | TMessage _ _ => true
  | _ => false
  end.

Fixpoint create_field_from_type_hint (h : hint) (converters : list Converter)
    (default : value) (name : option string) : outcome field :=
  let d := {| _name := name; _json_name := None |} in
  match h with
  | HType t =>
      if is_scalar_hint h then Ok (Field d (inl t) default no_options)
      else match find (λ c, hint_eqb (python c) h) converters with
           | Some c => Ok (ConverterField d c VNone no_options)
           | None =>
               if is_message t then Ok (Field d (inl t) VNone no_options)
               else Raise (NotImplementedError ("Unable to generate field for " +:+ hint_str h))
           end
  | HAny =>
      match find (λ c, hint_eqb (python c) h) converters with
      | Some c => Ok (ConverterField d c VNone no_options)
      | None => Raise (NotImplementedError ("Unable to generate field for " +:+ hint_str h))
      end
  | HList arg =>
      match find (λ c, hint_eqb (python c) h) converters with
      | Some c => Ok (ConverterField d c VNone no_options)
      | None =>
          match arg with
          | Some a =>
              items ← create_field_from_type_hint a [] VNone None;
              Ok (Repeat (ArgField items) name)
          | None => Raise TypeError
          end
      end
  end.

(** ** The JSON wire format ([venom/serialization/__init__.py])

    [sys_modules] is what [Field.type] resolves names against and [validate]
    is [self._validator.validate], which returns nothing and raises to
    reject. The codec addresses a field's slot by [field.attribute] and asks
    [field.optional]; [venom/fields.py] declares neither, so both are taken
    as given.

    [encode] and [decode] call themselves through the fields of nested
    messages, and a type declared by name can mention itself: the depth of
    these calls is bounded by [fuel], and a call beyond the bound raises
    [RecursionError]. *)

Section JSON.
Variable sys_modules : modules.
Variable validate : value → pytype → option exn.
Variable attribute : field → string.
Variable optional : field → bool.

(** [cls.__fields__]. *)
Definition get_fields (cls : pytype) : outcome (list (string * field)) :=
  match cls with
  | TMessage _ fs => Ok fs
  | _ => Raise AttributeError
  end.

(** [t in (float, float32, float64)]. *)
Definition is_float_type (t : pytype) : bool :=
  match t with
  | TFloat | TFloat32 | TFloat64 => true
  | _ => false
  end.

(** [{k: g(v) for k, v in entries}]. *)
Definition dict_comprehension (g : value → outcome value) (entries : list (string * value))
  : outcome value :=
  ys ← mapM (λ kv, y ← g kv.2; Ok (kv.1, y)) entries;
  Ok (VDict (dict_of_list ys)).

(** [JSON.encode_field]; [encode] is [self.encode]. The dispatch is on the
    exact class of the field. *)
Fixpoint encode_field (encode : value → pytype → outcome value)
    (v : value) (f : field) {struct f} : outcome value :=
  match v with
  | VNone => Ok VNone
  | _ =>
      match f with
      | RepeatField _ items _ =>
          xs ← py_iter v;
          ys ← mapM (λ item, encode_field encode item items) xs;
          Ok (VList ys)
      | MapField _ values _ =>
          entries ← py_items v;
          dict_comprehension (λ x, encode_field encode x values) entries
      | ConverterField _ c _ _ =>
          w ← format c v;
          encode w (wire c)
      | Field _ _ _ _ =>
          t ← resolve_type sys_modules f;
          if is_message t then encode v t else Ok v
      end
  end.

(** The loop of [JSON.encode] over [cls.__fields__.items()]. *)
Fixpoint encode_fields (encode_field : value → field → outcome value)
    (message : value) (fields : list (string * field)) (msg : list (string * value))
  : outcome (list (string * value)) :=
  match fields with
  | [] => Ok msg
  | (_, f) :: rest =>
      present ← py_contains (attribute f) message;
      if present : bool then
        x ← py_getitem message (attribute f);
        y ← encode_field x f;
        encode_fields encode_field message rest (dict_set (attribute f) y msg)
      else encode_fields encode_field message rest msg
  end.

(** [JSON.encode(message, cls)], [cls] given. *)
Fixpoint encode (fuel : nat) (message : value) (cls : pytype) : outcome value :=
  match fuel with
  | O => Raise RecursionError
  | S n =>
      fields ← get_fields cls;
      msg ← encode_fields (encode_field (encode n)) message fields [];
      Ok (VDict msg)
  end.

(** [JSON.decode_field]; [decode] is [self.decode]. *)
Fixpoint decode_field (decode : value → pytype → outcome value)
    (instance : value) (f : field) {struct f} : outcome value :=
  match instance with
  | VNone => Ok VNone
  | _ =>
      match f with
      | RepeatField _ items _ =>
          xs ← py_iter instance;
          ys ← mapM (λ item, decode_field decode item items) xs;
          Ok (VList ys)
      | MapField _ values _ =>
          match instance with
          | VDict entries =>
              dict_comprehension (λ x, decode_field decode x values) entries
          | _ => Raise AssertionError
          end
      | ConverterField _ c _ _ =>
          w ← decode instance (wire c);
          convert c w
      | Field _ _ _ _ =>
          t ← resolve_type sys_modules f;
          if is_message t then decode instance t
          else match instance with
               | VInt n =>
                   if is_float_type t then VFloat <$> py_float n else Ok instance
               | _ => Ok instance
               end
      end
  end.

(** The loop of [JSON._decode] over [cls.__fields__.items()]. *)
Fixpoint decode_fields (decode_field : value → field → outcome value)
    (instance : value) (fields : list (string * field)) (message : value)
  : outcome value :=
  match fields with
  | [] => Ok message
  | (_, f) :: rest =>
      present ← py_contains (attribute f) instance;
      if negb present then
        if optional f then decode_fields decode_field instance rest message
        else Raise ValueError
      else
        x ← py_getitem instance (attribute f);
        y ← decode_field x f;
        message' ← py_setitem message (attribute f) y;
        decode_fields decode_field instance rest message'
  end.

(** [JSON._decode]. *)
Definition _decode (decode : value → pytype → outcome value)
    (instance : value) (cls : pytype) : outcome value :=
  message ← type_call cls;
  fields ← get_fields cls;
  decode_fields (decode_field decode) instance fields message.

(** [JSON.decode]. *)
Fixpoint decode (fuel : nat) (instance : value) (cls : pytype) : outcome value :=
  match fuel with
  | O => Raise RecursionError
  | S n =>
      match validate instance cls with
      | Some e => Raise e
      | None => _decode (decode n) instance cls
      end
  end.

End JSON.

(** ** The view of a repeated field ([_RepeatValueProxy])

    A Python list is an object: the assignment in [insert] stores a
    reference, and the call after it changes the object the store now
    refers to. [lists] holds the list objects; a slot of the message's
    store refers to one of them or holds a scalar, which has no operation
    that changes it. Views are of one message, whose store is [values]. *)

(** [RepeatField.__get__] on an instance: a view of the field of the
    descriptor's name. A view is its message, here the one in memory, and
    that name. *)
Definition RepeatField__get__ (f : field) : option string := name f.

Inductive cell :=
| CList (l : nat)
| CScalar (v : value).

Record memory := {
  lists : gmap nat (list value);
  cls_name : string;
  values : list (string * cell);
}.

Definition set_lists (ls : gmap nat (list value)) (mem : memory) : memory :=
  {| lists := ls; cls_name := cls_name mem; values := values mem |}.

Definition set_values (vs : list (string * cell)) (mem : memory) : memory :=
  {| lists := lists mem; cls_name := cls_name mem; values := vs |}.

(** The object a reference leads to. Every reference the operations below
    make leads to an object; one that leads to none reads as empty. *)
Definition deref (mem : memory) (l : nat) : list value := lists mem !!! l.

Definition cell_value (mem : memory) (c : cell) : value :=
  match c with
  | CList l => VList (deref mem l)
  | CScalar v => v
  end.

(** Modelled from the spec: [Message.__getitem__] (venom.message is not
    among the sources), a lookup in the store; the result is given as the
    value the slot holds or refers to. *)
Definition Message_getitem (name : string) (mem : memory) : outcome value :=
  match dict_get name (values mem) with
  | Some c => Ok (cell_value mem c)
  | None => Raise (KeyError name)
  end.

(** The message as the codec reads it. *)
Definition snapshot (mem : memory) : value :=
  VMsg (cls_name mem) (prod_map id (cell_value mem) <$> values mem).

(** *** Python's list operations *)

Definition normalize_index (i : Z) (n : nat) : option nat :=
  let j := if decide (i < 0) then i + Z.of_nat n else i in
  if decide (0 ≤ j < Z.of_nat n) then Some (Z.to_nat j) else None.

(** [l[i]]. *)
Definition list_getitem (i : Z) (l : list value) : outcome value :=
  match normalize_index i (length l) ≫= (l !!.) with
  | Some x => Ok x
  | None => Raise IndexError
  end.

(** [l.insert(i, x)]: the index is clamped to the ends. *)
Definition list_insert_at (i : Z) (x : value) (l : list value) : list value :=
  let n := Z.of_nat (length l) in
  let j := if decide (i < 0) then Z.max (i + n) 0 else Z.min i n in
  take (Z.to_nat j) l ++ x :: drop (Z.to_nat j) l.

(** [del l[i]]. *)
Definition list_delitem (i : Z) (l : list value) : outcome (list value) :=
  match normalize_index i (length l) with
  | Some j => Ok (delete j l)
  | None => Raise IndexError
  end.

(** [l[i] = x]. *)
Definition list_setitem (i : Z) (x : value) (l : list value) : outcome (list value) :=
  match normalize_index i (length l) with
  | Some j => Ok (<[j:=x]> l)
  | None => Raise IndexError
  end.

Module _RepeatValueProxy.

(** The property [_sequence]: the stored object, or a new empty list. *)
Definition _sequence (name : string) (mem : memory) : cell * memory :=
  match dict_get name (values mem) with
  | Some c => (c, mem)
  | None =>
      let l := fresh (dom (lists mem)) in
      (CList l, set_lists (<[l:=[]]> (lists mem)) mem)
  end.

(** What a read of the object [c] sees. *)
Definition read (c : cell) (mem : memory) : outcome (list value) :=
  match c with
  | CList l => Ok (deref mem l)
  | CScalar v =>
      match v with
      | VStr _ | VBytes _ => py_iter v
      | _ => Raise TypeError
      end
  end.

Definition __iter__ (name : string) (mem : memory) : outcome (list value) * memory :=
  let '(sequence, mem) := _sequence name mem in
  (read sequence mem, mem).

Definition __len__ (name : string) (mem : memory) : outcome nat * memory :=
  let '(sequence, mem) := _sequence name mem in
  (length <$> read sequence mem, mem).

Definition __getitem__ (name : string) (index : Z) (mem : memory)
  : outcome value * memory :=
  let '(sequence, mem) := _sequence name mem in
  (read sequence mem ≫= list_getitem index, mem).

(** [self.message[self.name] = sequence = self._sequence]. *)
Definition write_back (name : string) (mem : memory) : cell * memory :=
  let '(sequence, mem) := _sequence name mem in
  (sequence, set_values (dict_set name sequence (values mem)) mem).

Definition insert (name : string) (index : Z) (x : value) (mem : memory)
  : outcome unit * memory :=
  let '(sequence, mem) := write_back name mem in
  match sequence with
  | CList l =>
      (Ok (), set_lists (<[l:=list_insert_at index x (deref mem l)]> (lists mem)) mem)
  | CScalar _ => (Raise AttributeError, mem)
  end.

Definition __delitem__ (name : string) (index : Z) (mem : memory)
  : outcome unit * memory :=
  let '(sequence, mem) := write_back name mem in
  match sequence with
  | CList l =>
      match list_delitem index (deref mem l) with
      | Ok l' => (Ok (), set_lists (<[l:=l']> (lists mem)) mem)
      | Raise e => (Raise e, mem)
      end
  | CScalar _ => (Raise TypeError, mem)
  end.

Definition __setitem__ (name : string) (index : Z) (x : value) (mem : memory)
  : outcome unit * memory :=
  let '(sequence, mem) := write_back name mem in
  match sequence with
  | CList l =>
      match list_setitem index x (deref mem l) with
      | Ok l' => (Ok (), set_lists (<[l:=l']> (lists mem)) mem)
      | Raise e => (Raise e, mem)
      end
  | CScalar _ => (Raise TypeError, mem)
  end.

End _RepeatValueProxy.

(** The sequence a field has before a view changes it: the list its slot
    refers to, or none yet. *)
Definition stored_sequence (name : string) (mem : memory) : list value :=
  match dict_get name (values mem) with
  | Some (CList l) => deref mem l
  | _ => []
  end.

(** The slot of a field refers to a list object and that object is [xs]. *)
Definition holds (name : string) (mem : memory) (xs : list value) : Prop :=
  ∃ l, dict_get name (values mem) = Some (CList l) ∧ deref mem l = xs.

(** ** Schema validation (venom.validation) *)

Section Validation.

(** How Python prints the values whose printed form is not written out
    below (floats, bytes, messages). *)
Variable repr_other : value → string.

Fixpoint join (sep : string) (l : list string) : string :=
  match l with
  | [] => EmptyString
  | [s] => s
  | s :: l' => s +:+ sep +:+ join sep l'
  end.

Definition quoted (s : string) : string := "'" +:+ s +:+ "'".

(** [repr(v)]; a string is put between single quotes as it is. *)
Fixpoint py_repr (v : value) : string :=
  match v with
  | VNone => "None"
  | VBool true => "True"
  | VBool false => "False"
  | VInt n => pretty n
  | VStr s => quoted s
  | VList l => "[" +:+ join ", " (map py_repr l) +:+ "]"
  | VDict d =>
      "{" +:+ join ", " (map (λ kv, quoted kv.1 +:+ ": " +:+ py_repr kv.2) d) +:+ "}"
  | _ => repr_other v
  end.

Record failure := {
  failure_message : string;
  failure_path : list step;
}.

Definition below (n : nat) (bound : option nat) : bool :=
  match bound with
  | Some b => bool_decide (n < b)%nat
  | None => false
  end.

Definition above (n : nat) (bound : option nat) : bool :=
  match bound with
  | Some b => bool_decide (b < n)%nat
  | None => false
  end.

(** The text of a length violation and of an item-count violation. *)
Definition length_message (s : string) (verdict : string) : string :=
  quoted s +:+ " is too " +:+ verdict.

Definition items_message (l : list value) (verdict : string) : string :=
  py_repr (VList l) +:+ " is too " +:+ verdict.

(** The length bounds on one value: those of a string. *)
Definition length_violations (sc : Schema) (path : list step) (v : value) : list failure :=
  match v with
  | VStr s =>
      (if below (String.length s) (min_length sc)
       then [{| failure_message := length_message s "short"; failure_path := path |}]
       else []) ++
      (if above (String.length s) (max_length sc)
       then [{| failure_message := length_message s "long"; failure_path := path |}]
       else [])
  | _ => []
  end.

(** The item-count bounds on one sequence. *)
Definition items_violations (sc : Schema) (path : list step) (l : list value) : list failure :=
  (if above (length l) (max_items sc)
   then [{| failure_message := items_message l "long"; failure_path := path |}]
   else []) ++
  (if below (length l) (min_items sc)
   then [{| failure_message := items_message l "short"; failure_path := path |}]
   else []).

(** Every violation of [sc] in a value of field [f], outer before inner and
    items from the first to the last. *)
Fixpoint violations_in (sc : Schema) (f : field) (path : list step) (v : value)
  : list failure :=
  match f with
  | RepeatField _ items _ =>
      match v with
      | VList l =>
          items_violations sc path l ++
          concat (imap (λ i item, violations_in sc items (path ++ [Index i]) item) l)
      | _ => []
      end
  | _ => length_violations sc path v
  end.

(** Every violation in a message, fields in the order of their declaration.
    A field without a [schema] option or without a stored value has none. *)
Definition violations (fields : list (string * field)) (message : list (string * value))
  : list failure :=
  concat ((λ kf : string * field,
    match schema (field_options kf.2), dict_get kf.1 message with
    | Some sc, Some v => violations_in sc kf.2 [Attr kf.1] v
    | _, _ => []
    end) <$> fields).

(** Raise a validation failure when [bad]. *)
Definition check (bad : bool) (message : string) (path : list step) : outcome unit :=
  if bad then Raise (ValidationError message path) else Ok ().

(** The length bounds on one value; those of a string are checked. *)
Definition validate_length (sc : Schema) (path : list step) (v : value) : outcome unit :=
  match v with
  | VStr s =>
      _ ← check (below (String.length s) (min_length sc)) (length_message s "short") path;
      check (above (String.length s) (max_length sc)) (length_message s "long") path
  | _ => Ok ()
  end.

(** The items of a sequence, from the one of index [i] on. *)
Fixpoint validate_each (g : nat → value → outcome unit) (i : nat) (l : list value)
  : outcome unit :=
  match l with
  | [] => Ok ()
  | item :: l' => _ ← g i item; validate_each g (S i) l'
  end.

(** Modelled from the spec: the walk of the validator into one value. In a
    repeated field it checks the item count and then the items from the
    first on, the index appended to the path; anywhere else it checks the
    length. *)
Fixpoint validate_value (sc : Schema) (f : field) (path : list step) (v : value)
  : outcome unit :=
  match f with
  | RepeatField _ items _ =>
      match v with
      | VList l =>
          _ ← check (above (length l) (max_items sc)) (items_message l "long") path;
          _ ← check (below (length l) (min_items sc)) (items_message l "short") path;
          validate_each (λ i item, validate_value sc items (path ++ [Index i]) item) 0 l
      | _ => Ok ()
      end
  | _ => validate_length sc path v
  end.

(** Modelled from the spec: [MessageValidator.validate] of venom.validation,
    of which the sources have the tests only. It walks the fields in the
    order of their declaration and raises at the first bound it finds
    broken, with the text and the path of that violation. A field without a
    [schema] option or without a stored value is passed over. *)
Fixpoint MessageValidator_validate (fields : list (string * field))
    (message : list (string * value)) : outcome unit :=
  match fields with
  | [] => Ok ()
  | (k, f) :: rest =>
      _ ← match schema (field_options f), dict_get k message with
          | Some sc, Some v => validate_value sc f [Attr k] v
          | _, _ => Ok ()
          end;
      MessageValidator_validate rest message
  end.

(** The failure a run of the validator ends in. *)
Definition raised (r : outcome unit) : option failure :=
  match r with
  | Raise (ValidationError m p) => Some {| failure_message := m; failure_path := p |}
  | _ => None
  end.

(** The value a path leads to. *)
Fixpoint at_path (v : value) (path : list step) : option value :=
  match path with
  | [] => Some v
  | Attr k :: path' =>
      match v with
      | VMsg _ stored => dict_get k stored ≫= λ x, at_path x path'
      | _ => None
      end
  | Index i :: path' =>
      match v with
      | VList l => l !! i ≫= λ x, at_path x path'
      | _ => None
      end
  end.

(** A run of the validator ends in the first of a list of violations, or
    returns when there is none. *)
Definition raises_first (r : outcome unit) (l : list failure) : Prop :=
  match l with
  | [] => r = Ok ()
  | fl :: _ => r = Raise (ValidationError (failure_message fl) (failure_path fl))
  end.

(** The text of a failure is the one for the value [u]: a string too short
    or too long, a sequence too long or too short. *)
Definition reports (fl : failure) (u : value) : Prop :=
  (∃ s, u = VStr s ∧
        (failure_message fl = quoted s +:+ " is too short" ∨
         failure_message fl = quoted s +:+ " is too long")) ∨
  (∃ l, u = VList l ∧
        (failure_message fl = py_repr (VList l) +:+ " is too long" ∨
         failure_message fl = py_repr (VList l) +:+ " is too short")).

End Validation.

(** ** Notions the statements use *)

(** Modelled from the spec: equality of messages (venom.message is not
    among the sources), which holds of two instances of one class that store
    equal values under every name; and with it Python's equality of lists,
    item by item, and of dicts, key by key whatever the order in which the
    entries were made. *)
Inductive py_eq : value → value → Prop :=
| py_eq_refl v : py_eq v v
| py_eq_list l1 l2 :
    Forall2 py_eq l1 l2 → py_eq (VList l1) (VList l2)
| py_eq_dict d1 d2 :
    (∀ k, option_Forall2 py_eq (dict_get k d1) (dict_get k d2)) →
    py_eq (VDict d1) (VDict d2)
| py_eq_msg c s1 s2 :
    (∀ k, option_Forall2 py_eq (dict_get k s1) (dict_get k s2)) →
    py_eq (VMsg c s1) (VMsg c s2).

(** [v] encodes, and what it encodes to decodes to its equal. *)
Definition there_and_back (enc dec : value → outcome value) (v : value) : Prop :=
  ∃ e v', enc v = Ok e ∧ dec e = Ok v' ∧ py_eq v' v.

Section Conforms.
Variable sys_modules : modules.
Variable attribute : field → string.
Variable optional : field → bool.

(** The slots the fields of a class address. *)
Definition attributes (fields : list (string * field)) : list string :=
  (λ kf, attribute kf.2) <$> fields.

(** A value a field of kind [f] can hold and the codec can carry both ways:
    nothing; a list of such values; a dict of such values; a value its
    converter formats to a message of the wire class and gets back from any
    equal message; a message of the field's class; any other value, except
    that an [int] is not held where the field's type is a float type. *)
Fixpoint conforms_field (conforms : value → pytype → Prop) (v : value) (f : field)
    {struct f} : Prop :=
  v = VNone ∨
  match f with
  | RepeatField _ items _ =>
      ∃ l, v = VList l ∧ Forall (λ x, conforms_field conforms x items) l
  | MapField _ values _ =>
      ∃ d, v = VDict d ∧ NoDup d.*1 ∧
           Forall (λ kv : string * value, conforms_field conforms kv.2 values) d
  | ConverterField _ c _ _ =>
      ∃ w, format c v = Ok w ∧ conforms w (wire c) ∧
           ∀ w', py_eq w' w → ∃ v', convert c w' = Ok v' ∧ py_eq v' v
  | Field _ _ _ _ =>
      ∃ t, resolve_type sys_modules f = Ok t ∧
           if is_message t then conforms v t
           else is_float_type t = true → ∀ n, v ≠ VInt n
  end.

(** A message of class [cls], nested at most [depth] deep: it stores values
    under names its fields address, a conforming value for each field that
    has one, and has one for each field that is not optional. *)
Fixpoint conforms (depth : nat) (v : value) (cls : pytype) : Prop :=
  match depth with
  | O => False
  | S depth' =>
      ∃ name fields stored,
        cls = TMessage name fields ∧ v = VMsg name stored ∧
        NoDup (attributes fields) ∧
        (∀ k, k ∈ stored.*1 → k ∈ attributes fields) ∧
        Forall (λ kf : string * field,
          match dict_get (attribute kf.2) stored with
          | Some x => conforms_field (conforms depth') x kf.2
          | None => optional kf.2 = true
          end) fields
  end.

(** An input object without the keys no field of [cls] addresses. *)
Definition strip_unknown (cls : pytype) (d : list (string * value)) : list (string * value) :=
  match cls with
  | TMessage _ fields => filter (λ kv, kv.1 ∈ attributes fields) d
  | _ => d
  end.

End Conforms.

Definition upper (a : ascii) : ascii :=
  let n := nat_of_ascii a in
  if (97 <=? n)%nat && (n <=? 122)%nat then ascii_of_nat (n - 32) else a.

(** A lower_snake name without its underscores, each letter that followed one
    in upper case. *)
Fixpoint camel (up : bool) (s : string) : string :=
  match s with
  | EmptyString => EmptyString
  | String a s' =>
      if Ascii.eqb a "_"%char then camel true s'
      else String (if up then upper a else a) (camel false s')
  end.

(** Modelled from the spec: [camelcase] of venom.util, which is not among the
    sources and which computes the default wire key of a field from its
    attribute name; the spec has a lower_snake name map to its lowerCamelCase
    form. *)
Definition lowerCamelCase (name : option string) : outcome string :=
  match name with
  | Some s => Ok (camel false s)
  | None => Raise TypeError
  end.

(** ** Sample declarations

    Converters in the manner of venom.common: a string held in a
    [StringValue] message; a date and time, taken as the seconds since the
    epoch, held in a [Timestamp]. *)

Definition named (n : string) : FieldDescriptor :=
  {| _name := Some n; _json_name := None |}.

Definition StringValue : pytype :=
  TMessage "venom.common.StringValue" [("value", Field (named "value") (inl TStr) VNone no_options)].

Definition StringValueConverter : Converter := {|
  wire := StringValue;
  python := HType TStr;
  format := λ v, Ok (VMsg "venom.common.StringValue" [("value", v)]);
  convert := λ w, py_getitem w "value";
|}.

Definition datetime : pytype := TClass "datetime.datetime" (Raise TypeError).

Definition Timestamp : pytype :=
  TMessage "venom.common.Timestamp"
    [("seconds", Field (named "seconds") (inl TInt) VNone no_options);
     ("nanos", Field (named "nanos") (inl TInt) VNone no_options)].

Definition DateTimeConverter : Converter := {|
  wire := Timestamp;
  python := HType datetime;
  format := λ v, Ok (VMsg "venom.common.Timestamp" [("seconds", v); ("nanos", VInt 0)]);
  convert := λ w, py_getitem w "seconds";
|}.

(** A validator that rejects nothing, and slots and optional fields read off
    the declarations: the slot is the field's name, and a field is optional
    when it was declared with [optional=True]. *)
Definition accept_all (instance : value) (cls : pytype) : option exn := None.

Definition attribute_of_name (f : field) : string := default EmptyString (name f).

Definition optional_of_options (f : field) : bool :=
  match dict_get "optional" (extra (field_options f)) with
  | Some (VBool true) => true
  | _ => false
  end.

(** A request with a name and, optionally, tags. *)
Definition HelloRequest : pytype :=
  TMessage "HelloRequest"
    [("name", Field (named "name") (inl TStr) VNone no_options);
     ("tags", RepeatField (named "tags") (Field unnamed (inl TStr) VNone no_options)
                {| schema := None; extra := [("optional", VBool true)] |})].

(** The requests of the validation tests: a name of 3 to 5 characters; up
    to 5 names of 3 to 5 characters each. *)
Definition name_schema : Schema :=
  {| min_length := Some 3%nat; max_length := Some 5%nat;
     min_items := None; max_items := None |}.

Definition names_schema : Schema :=
  {| min_length := Some 3%nat; max_length := Some 5%nat;
     min_items := None; max_items := Some 5%nat |}.

Definition NameRequest : list (string * field) :=
  [("name", Field (named "name") (inl TStr) VNone {| schema := Some name_schema; extra := [] |})].

Definition NamesRequest : list (string * field) :=
  [("names", RepeatField (named "names") (Field unnamed (inl TStr) VNone no_options)
               {| schema := Some names_schema; extra := [] |})].

(** A stand-in for the printed form of floats, bytes and messages. *)
Definition repr_object (v : value) : string := "<object>".

(** [SchemaMessage] of [venom/rpc/reflect/stubs.py], without its map of
    properties: the field [items] is declared by the name of the class
    itself. Its fields are optional here. *)
Definition SchemaMessage : pytype :=
  TMessage "SchemaMessage"
    [("type", Field (named "type") (inl TStr) VNone no_options);
     ("ref", Field {| _name := Some "ref"; _json_name := Some "$ref" |} (inl TStr) VNone
               no_options);
     ("items", Field (named "items") (inr "venom.rpc.reflect.openapi.SchemaMessage") VNone
                 no_options)].

Definition reflect_modules : modules :=
  [("venom.rpc.reflect.openapi", [("SchemaMessage", SchemaMessage)])].


(** ** Service names ([venom/rpc/service.py])

    Strings stand for ASCII text: a class name is an identifier. *)













(** ** Attribute access through the descriptors ([venom/fields.py]) *)

Definition with_descriptor (d : FieldDescriptor) (f : field) : field :=
  match f with
  | Field _ t v o => Field d t v o
  | ConverterField _ c v o => ConverterField d c v o
  | RepeatField _ items o => RepeatField d items o
  | MapField _ values o => MapField d values o
  end.

(** [FieldDescriptor.__set_name__(owner, name)], which Python calls on each
    descriptor of a class body when the class is made. *)
Definition __set_name__ (f : field) (name : string) : field :=
  match _name (descriptor f) with
  | None => with_descriptor {| _name := Some name; _json_name := _json_name (descriptor f) |} f
  | Some _ => f
  end.

(** What reading an attribute gives: a value, or the view of a repeated
    field. *)
Inductive attribute_value :=
| AValue (v : value)
| AView (name : string).

Section Descriptors.
Variable sys_modules : modules.

(** [Message.get] of venom.message, which [ConverterField.__get__] calls. *)
Variable Message_get : value → string → outcome value.

(** [__get__(instance, owner)] on an instance, by the class of the field:
    [FieldDescriptor.__get__] for plain and map fields,
    [ConverterField.__get__] and [RepeatField.__get__]. The result is [None]
    for a descriptor without a name, whose slot is not one of a store keyed
    by names. *)
Definition __get__ (f : field) (cache : option pytype) (instance : value)
  : option (outcome attribute_value * option pytype) :=
  n ← name f;
  Some match f with
       | Field _ _ _ _ | MapField _ _ _ =>
           match py_getitem instance n with
           | Ok x => (Ok (AValue x), cache)
           | Raise (KeyError _) =>
               let '(r, cache') := Field_default sys_modules f cache in
               (AValue <$> r, cache')
           | Raise e => (Raise e, cache)
           end
       | ConverterField _ c _ _ =>
           (AValue <$> (Message_get instance n ≫= convert c), cache)
       | RepeatField _ _ _ => (Ok (AView n), cache)
       end.

(** [__set__(instance, value)], by the class of the field:
    [ConverterField.__set__], and [FieldDescriptor.__set__] for the others. *)
Definition __set__ (f : field) (instance : value) (v : value) : option (outcome value) :=
  n ← name f;
  Some match f with
       | ConverterField _ c _ _ => w ← format c v; py_setitem instance n w
       | _ => py_setitem instance n v
       end.

End Descriptors.


(** [type(f) is ConverterField]. *)
Definition is_converter (f : field) : bool :=
  match f with
  | ConverterField _ _ _ _ => true
  | _ => false
  end.

(** The fields of [HelloRequest]. *)
Definition HelloRequest_fields : list (string * field) :=
  [("name", Field (named "name") (inl TStr) VNone no_options);
   ("tags", RepeatField (named "tags") (Field unnamed (inl TStr) VNone no_options)
              {| schema := None; extra := [("optional", VBool true)] |})].

(** A [get] in the manner of [Mapping.get]: what the message has under the
    name, and [None] when it has nothing there. *)
Definition Mapping_get (m : value) (k : string) : outcome value :=
  match py_getitem m k with
  | Raise (KeyError _) => Ok VNone
  | r => r
  end.

(** ** Messages in memory *)

(** Every reference of the store leads to a list object. *)
Definition well_formed (mem : memory) : Prop :=
  Forall (λ kc : string * cell,
            match kc.2 with
            | CList l => is_Some (lists mem !! l)
            | CScalar _ => True
            end) (values mem).

(** The slots of two fields refer to the same list object. *)
Definition shares (k name : string) (mem : memory) : Prop :=
  ∃ l, dict_get k (values mem) = Some (CList l) ∧
       dict_get name (values mem) = Some (CList l).

(** ** Inferred fields *)

(** A field that holds its type as a class, is no map field, and whose item
    fields, at any depth, are such fields without a name. *)
Fixpoint by_class (f : field) : bool :=
  match f with
  | Field _ (inl _) _ _ => true
  | Field _ (inr _) _ _ => false
  | ConverterField _ _ _ _ => true
  | RepeatField _ items _ => by_class items && bool_decide (name items = None)
  | MapField _ _ _ => false
  end.

(** The number of [RepeatField]s a field is wrapped in, and of [List]s a
    hint is. *)
Fixpoint field_depth (f : field) : nat :=
  match f with
  | RepeatField _ items _ => S (field_depth items)
  | _ => O
  end.

Fixpoint hint_depth (h : hint) : nat :=
  match h with
  | HList (Some a) => S (hint_depth a)
  | _ => O
  end.

(** * Properties *)

(** ** [float] of an [int] *)

Lemma digits2_pos_size p : digits2_pos p = Pos.size p.
Proof. induction p; simpl; congruence. Qed.

Lemma digits2_pos_bound p : Z.pos p < 2 ^ 53 → Z.pos (digits2_pos p) ≤ 53.
Proof.
  intros Hp. rewrite digits2_pos_size.
  destruct (decide (Z.pos (Pos.size p) ≤ 53)) as [|Hn]; [done|].
  exfalso. pose proof (Pos.size_le p) as Hle.
  assert (2 ^ 54 ≤ Z.pos (2 ^ Pos.size p)) as Hpow.
  { rewrite Pos2Z.inj_pow. apply Z.pow_le_mono_r; lia. }
  lia.
Qed.

Lemma iter_xO_value p k : Z.pos (Pos.iter xO p k) = Z.pos p * 2 ^ Z.pos k.
Proof.
  induction k as [|k IH] using Pos.peano_ind.
  - simpl. lia.
  - rewrite Pos.iter_succ, Pos2Z.inj_xO, IH, Pos2Z.inj_succ, Z.pow_succ_r by lia. lia.
Qed.

Lemma iter_xO_digits p k :
  digits2_pos (Pos.iter xO p k) = (digits2_pos p + k)%positive.
Proof.
  induction k as [|k IH] using Pos.peano_ind.
  - simpl. lia.
  - rewrite Pos.iter_succ. simpl. rewrite IH. lia.
Qed.

Lemma binary_round_aux_exact s p e :
  digits2_pos p = 53%positive → -1074 ≤ e ≤ 971 →
  binary_round_aux 53 1024 s (Z.pos p) e loc_Exact = S754_finite s p e.
Proof.
  intros Hd He. unfold binary_round_aux, shr_fexp.
  assert (fexp 53 1024 (Zdigits2 (Z.pos p) + e) - e = 0) as ->.
  { simpl. rewrite Hd. unfold fexp, emin. lia. }
  simpl. rewrite Hd.
  assert (fexp 53 1024 (53 + e) - e = 0) as ->.
  { unfold fexp, emin. lia. }
  simpl. destruct (Z.leb_spec e (1024 - 53)); [done | lia].
Qed.

Lemma binary_round_small s p :
  Z.pos p < 2 ^ 53 →
  ∃ m e, binary_round 53 1024 s p 0 = S754_finite s m e ∧
         e ≤ 0 ∧ Z.pos m = Z.pos p * 2 ^ (- e).
Proof.
  intros Hp. apply digits2_pos_bound in Hp.
  unfold binary_round.
  assert (fexp 53 1024 (Z.pos (digits2_pos p) + 0) = Z.pos (digits2_pos p) - 53) as ->.
  { unfold fexp, emin. lia. }
  unfold shl_align.
  destruct (Z.pos (digits2_pos p) - 53 - 0) as [|d|d] eqn:Hd; [|lia|].
  - exists p, 0. split; [|split; [lia|simpl; lia]].
    apply binary_round_aux_exact; lia.
  - exists (Pos.iter xO p d), (Z.pos (digits2_pos p) - 53). split; [|split; [lia|]].
    + apply binary_round_aux_exact; [|lia].
      rewrite iter_xO_digits. lia.
    + rewrite iter_xO_value. f_equal. f_equal. lia.
Qed.

Lemma py_float_exact n :
  Z.abs n ≤ 2 ^ 53 → ∃ x, py_float n = Ok x ∧ float_is_integer x n.
Proof.
  intros Hn. unfold py_float.
  destruct (decide (Z.abs n = 2 ^ 53)) as [Heq|Hne].
  { assert (n = 2 ^ 53 ∨ n = - 2 ^ 53) as [-> | ->] by lia.
    - eexists. split; [vm_compute; reflexivity | vm_compute; reflexivity].
    - eexists. split; [vm_compute; reflexivity | vm_compute; reflexivity]. }
  destruct n as [|p|p]; simpl binary_normalize.
  - eexists. split; [done | done].
  - destruct (binary_round_small false p) as (m & e & -> & He & Hm); [lia|].
    eexists. split; [done|]. simpl. case_decide.
    + assert (e = 0) as -> by lia. simpl in *. lia.
    + simpl. lia.
  - destruct (binary_round_small true p) as (m & e & -> & He & Hm); [lia|].
    eexists. split; [done|]. simpl. case_decide.
    + assert (e = 0) as -> by lia. simpl in *. lia.
    + simpl. lia.
Qed.

(** ** Null values and scalars in the codec *)

Section Scalars.
Variable sys_modules : modules.

(** C10. For a field of any kind, [encode_field] and [decode_field] map
    [None] to [None], whatever the nested codec and the field's converter
    would do. *)
Theorem null_passes_through (encode decode : value → pytype → outcome value) (f : field) :
  encode_field sys_modules encode VNone f = Ok VNone ∧
  decode_field sys_modules decode VNone f = Ok VNone.
Proof. by destruct f. Qed.

Lemma decode_field_plain decode f d ty dflt o t v :
  f = Field d ty dflt o →
  resolve_type sys_modules f = Ok t →
  is_message t = false →
  (is_float_type t = true → ∀ n, v ≠ VInt n) →
  decode_field sys_modules decode v f = Ok v.
Proof.
  intros -> Ht Hm Hv. destruct v; try done; cbn -[resolve_type]; rewrite Ht; cbn;
    rewrite Hm; try done.
  destruct (is_float_type t); [|done]. by destruct (Hv eq_refl n).
Qed.

(** C7, amended. In a plain field whose type is a float type, an [int] of
    magnitude at most 2^53 decodes to a float that stands for the same
    number; in a plain field of any other type that is not a message class,
    every value decodes to itself. *)
Theorem decode_field_scalar decode d ty dflt o t
    (Ht : resolve_type sys_modules (Field d ty dflt o) = Ok t)
    (Hm : is_message t = false) :
  if is_float_type t
  then ∀ n, Z.abs n ≤ 2 ^ 53 →
         ∃ x, decode_field sys_modules decode (VInt n) (Field d ty dflt o) = Ok (VFloat x) ∧
              float_is_integer x n
  else ∀ v, decode_field sys_modules decode v (Field d ty dflt o) = Ok v.
Proof.
  destruct (is_float_type t) eqn:Hf.
  - intros n Hn. destruct (py_float_exact n Hn) as (x & Hx & Hint).
    exists x. split; [|done].
    cbn -[resolve_type]. rewrite Ht. cbn. by rewrite Hm, Hf, Hx.
  - intros v. eapply decode_field_plain; [done..|]. by rewrite Hf.
Qed.

End Scalars.

Lemma decode_field_scalar_witness :
  (∃ x, decode_field [] (λ _ _, Raise RecursionError) (VInt 3)
          (Field unnamed (inl TFloat) VNone no_options) = Ok (VFloat x) ∧
        float_is_integer x 3) ∧
  decode_field [] (λ _ _, Raise RecursionError) (VInt 3)
    (Field unnamed (inl TStr) VNone no_options) = Ok (VInt 3).
Proof.
  split.
  - apply (decode_field_scalar [] (λ _ _, Raise RecursionError)
             unnamed (inl TFloat) VNone no_options TFloat eq_refl eq_refl 3).
    vm_compute. discriminate.
  - apply (decode_field_scalar [] (λ _ _, Raise RecursionError)
             unnamed (inl TStr) VNone no_options TStr eq_refl eq_refl (VInt 3)).
Defined.

(** C7 as stated fails: 2^53 + 1 decodes into a float field as 2^53, and an
    [int] of 1025 bits does not decode at all. *)
Lemma float_widening_inexact :
  let f := Field unnamed (inl TFloat) VNone no_options in
  let decode := λ _ _, Raise RecursionError in
  decode_field [] decode (VInt (2 ^ 53 + 1)) f
    = Ok (VFloat (S754_finite false 4503599627370496 1)) ∧
  ¬ float_is_integer (S754_finite false 4503599627370496 1) (2 ^ 53 + 1) ∧
  decode_field [] decode (VInt (2 ^ 1024)) f = Raise OverflowError.
Proof.
  split; [by vm_compute|]. split; [|by vm_compute].
  unfold float_is_integer. case_decide; [|lia]. vm_compute. discriminate.
Qed.

(** ** Fields: defaults, type resolution, wire names *)

Lemma Field_type_twice sys_modules f cache :
  let '(r1, c1) := Field_type sys_modules f cache in
  Field_type sys_modules f c1 = (r1, c1).
Proof.
  unfold Field_type. destruct cache as [t|]; [done|].
  by destruct (resolve_type sys_modules f).
Qed.

(** C5. A plain or converter field declared with a default returns it; one
    declared without returns what calling its resolved type without
    arguments gives, an empty string for [str] and 0 for [int]; and a second
    call returns what the first returned. *)
Theorem Field_default_spec sys_modules f cache (HF : is_Field f = true) :
  match _default f with
  | VNone =>
      ∀ t cache', Field_type sys_modules f cache = (Ok t, cache') →
                  Field_default sys_modules f cache = (type_call t, cache')
  | v => Field_default sys_modules f cache = (Ok v, cache)
  end ∧
  type_call TStr = Ok (VStr EmptyString) ∧
  type_call TInt = Ok (VInt 0) ∧
  (Field_default sys_modules f (Field_default sys_modules f cache).2).1
    = (Field_default sys_modules f cache).1.
Proof.
  split; [|split; [done|split; [done|]]].
  - destruct f as [? ? dflt ?|? ? dflt ?| |]; try done; destruct dflt; try done;
      intros t cache' Ht; unfold Field_default; by rewrite Ht.
  - pose proof (Field_type_twice sys_modules f cache) as H2.
    destruct f as [? ? dflt ?|? ? dflt ?| |]; try done; destruct dflt; try done;
      unfold Field_default; destruct (Field_type _ _ cache) as [r1 c1]; cbn; by rewrite H2.
Qed.

Lemma Field_default_spec_witness :
  Field_default [] (Field unnamed (inl TInt) VNone no_options) None = (Ok (VInt 0), Some TInt) ∧
  Field_default [] (Field unnamed (inl TInt) (VInt 7) no_options) None
    = (Ok (VInt 7), None).
Proof.
  split.
  - exact (proj1 (Field_default_spec [] (Field unnamed (inl TInt) VNone no_options) None eq_refl)
             TInt (Some TInt) eq_refl).
  - exact (proj1 (Field_default_spec [] (Field unnamed (inl TInt) (VInt 7) no_options)
                    None eq_refl)).
Defined.

Lemma rsplit_dot_None s : rsplit_dot s = None ↔ contains_dot s = false.
Proof.
  induction s as [|a s IH]; [done|]. simpl.
  destruct (rsplit_dot s) as [[m c]|].
  - split; [done|]. intros [_ H]%orb_false_iff. apply IH in H. done.
  - destruct (Ascii.eqb a "."); [done|]. simpl. split; [|done]. intros _. by apply IH.
Qed.

Lemma rsplit_dot_app m c :
  contains_dot c = false → rsplit_dot (m +:+ "." +:+ c) = Some (m, c).
Proof.
  intros Hc%rsplit_dot_None. induction m as [|a m IH].
  - change (EmptyString +:+ "." +:+ c) with (String "." c). simpl. by rewrite Hc.
  - change (String a m +:+ "." +:+ c) with (String a (m +:+ "." +:+ c)).
    simpl. by rewrite IH.
Qed.

Lemma import_module_missing sys_modules m :
  dict_get m sys_modules = None → raises (import_module sys_modules m).
Proof.
  intros Hm. unfold import_module, raises. destruct m as [|a m]; [by eexists|].
  destruct (Ascii.eqb a "."); [by eexists|]. rewrite Hm. by eexists.
Qed.

(** C8. For a field declared by a type name: the first access imports the
    module the name gives and returns the attribute it gives, keeping it;
    a name without a dot, a module that is not there and an attribute that
    is not there each raise and keep nothing; once an access has returned a
    type, every later access returns it, whatever the modules hold then. *)
Theorem Field_type_by_name sys_modules d s dflt o :
  let f := Field d (inr s) dflt o in
  (∀ m c md t,
     s = m +:+ "." +:+ c → contains_dot c = false →
     import_module sys_modules m = Ok md → dict_get c md = Some t →
     Field_type sys_modules f None = (Ok t, Some t)) ∧
  (contains_dot s = false →
     ∃ msg, Field_type sys_modules f None = (Raise (RuntimeError msg), None)) ∧
  (∀ m c,
     s = m +:+ "." +:+ c → contains_dot c = false →
     dict_get m sys_modules = None →
     ∃ e, Field_type sys_modules f None = (Raise e, None)) ∧
  (∀ m c md,
     s = m +:+ "." +:+ c → contains_dot c = false →
     import_module sys_modules m = Ok md → dict_get c md = None →
     Field_type sys_modules f None = (Raise AttributeError, None)) ∧
  (∀ t cache,
     Field_type sys_modules f None = (Ok t, cache) →
     ∀ sys_modules', Field_type sys_modules' f cache = (Ok t, cache)).
Proof.
  intros f. repeat split.
  - intros m c md t -> Hc Hm Ht. unfold Field_type, f. cbn.
    rewrite (rsplit_dot_app _ _ Hc), Hm. cbn. unfold getattr. by rewrite Ht.
  - intros Hs%rsplit_dot_None. unfold Field_type, f. cbn. rewrite Hs. by eexists.
  - intros m c -> Hc Hm. destruct (import_module_missing _ _ Hm) as [e He].
    exists e. unfold Field_type, f. cbn. rewrite (rsplit_dot_app _ _ Hc), He. done.
  - intros m c md -> Hc Hm Ht. unfold Field_type, f. cbn.
    rewrite (rsplit_dot_app _ _ Hc), Hm. cbn. unfold getattr. by rewrite Ht.
  - intros t cache Ht sys_modules'. unfold Field_type in Ht.
    destruct (resolve_type sys_modules f); by simplify_eq.
Qed.

Lemma Field_type_by_name_witness :
  let f := Field unnamed (inr "venom.common.Timestamp") VNone no_options in
  let sys_modules := [("venom.common", [("Timestamp", TMessage "Timestamp" [])])] in
  Field_type sys_modules f None
    = (Ok (TMessage "Timestamp" []), Some (TMessage "Timestamp" [])) ∧
  Field_type [] f (Some (TMessage "Timestamp" []))
    = (Ok (TMessage "Timestamp" []), Some (TMessage "Timestamp" [])) ∧
  (∃ e, Field_type [] f None = (Raise e, None)) ∧
  (∃ msg, Field_type sys_modules (Field unnamed (inr "Timestamp") VNone no_options) None
            = (Raise (RuntimeError msg), None)) ∧
  Field_type sys_modules (Field unnamed (inr "venom.common.Duration") VNone no_options) None
    = (Raise AttributeError, None).
Proof.
  intros f sys_modules.
  pose (H := Field_type_by_name sys_modules unnamed "venom.common.Timestamp" VNone no_options).
  split; [|split; [|split; [|split]]].
  - exact (proj1 H "venom.common" "Timestamp" _ _ eq_refl eq_refl eq_refl eq_refl).
  - exact (proj2 (proj2 (proj2 (proj2 H))) _ _
             (proj1 H "venom.common" "Timestamp" _ _ eq_refl eq_refl eq_refl eq_refl) []).
  - exact (proj1 (proj2 (proj2
             (Field_type_by_name [] unnamed "venom.common.Timestamp" VNone no_options)))
             "venom.common" "Timestamp" eq_refl eq_refl eq_refl).
  - exact (proj1 (proj2 (Field_type_by_name sys_modules unnamed "Timestamp" VNone no_options))
             eq_refl).
  - exact (proj1 (proj2 (proj2 (proj2
             (Field_type_by_name sys_modules unnamed "venom.common.Duration" VNone no_options))))
             "venom.common" "Duration" _ eq_refl eq_refl eq_refl eq_refl).
Defined.

(** The cache does not change what an access returns while the modules stay
    the same: the codec reads [field.type] through [resolve_type]. *)
Lemma Field_type_coherent sys_modules f cache :
  (∀ t, cache = Some t → resolve_type sys_modules f = Ok t) →
  (Field_type sys_modules f cache).1 = resolve_type sys_modules f.
Proof.
  intros Hc. unfold Field_type. destruct cache as [t|].
  - by rewrite (Hc t eq_refl).
  - by destruct (resolve_type sys_modules f).
Qed.

(** C9. The wire key of a field is [camelcase] of its attribute name when no
    wire name was given, and the wire name given otherwise. *)
Theorem json_name_spec camelcase f :
  (_json_name (descriptor f) = None → json_name camelcase f = camelcase (name f)) ∧
  (∀ j, _json_name (descriptor f) = Some j → json_name camelcase f = Ok j).
Proof.
  unfold json_name. split.
  - by intros ->.
  - by intros j ->.
Qed.

(** [additional_properties] and [ref = String(json_name='$ref')] of
    [SchemaMessage]. *)
Lemma json_name_spec_witness :
  json_name lowerCamelCase
    (Field {| _name := Some "additional_properties"; _json_name := None |}
       (inr "venom.rpc.reflect.openapi.SchemaMessage") VNone no_options)
    = Ok "additionalProperties" ∧
  json_name lowerCamelCase
    (Field {| _name := Some "ref"; _json_name := Some "$ref" |} (inl TStr) VNone no_options)
    = Ok "$ref".
Proof.
  split.
  - exact (proj1 (json_name_spec lowerCamelCase
      (Field {| _name := Some "additional_properties"; _json_name := None |}
         (inr "venom.rpc.reflect.openapi.SchemaMessage") VNone no_options)) eq_refl).
  - exact (proj2 (json_name_spec lowerCamelCase
      (Field {| _name := Some "ref"; _json_name := Some "$ref" |} (inl TStr) VNone no_options))
      "$ref" eq_refl).
Defined.

(** ** Field inference *)

Lemma find_first {A} (P : A → bool) pre c post :
  Forall (λ c', P c' = false) pre → P c = true → find P (pre ++ c :: post)%list = Some c.
Proof.
  intros Hpre Hc. induction Hpre as [|c' pre Hc' _ IH]; simpl.
  - by rewrite Hc.
  - by rewrite Hc'.
Qed.

Lemma find_none {A} (P : A → bool) l :
  Forall (λ c', P c' = false) l → find P l = None.
Proof. induction 1 as [|c' l Hc' _ IH]; simpl; [done|]. by rewrite Hc'. Qed.

(** C6, amended. A [bool], [int], [float], [str] or [bytes] hint gives a
    plain field of that type, converters or not. Any other hint that some
    converter has as its native type gives a converter field with the first
    such converter. Of the hints no converter has: [List[T]] gives a
    repeated field over the field derived for [T], where that field is the
    same with and without the converters; a message class gives a plain
    field of that class; [Any] and any other class raise
    [NotImplementedError] with a text that ends in the hint. *)
Theorem create_field_from_type_hint_spec h converters default name :
  let d := {| _name := name; _json_name := None |} in
  let unmatched := Forall (λ c, hint_eqb (python c) h = false) converters in
  (∀ t, h = HType t → is_scalar_hint h = true →
     create_field_from_type_hint h converters default name
       = Ok (Field d (inl t) default no_options)) ∧
  (is_scalar_hint h = false →
   ∀ pre c post,
     converters = (pre ++ c :: post)%list →
     Forall (λ c', hint_eqb (python c') h = false) pre →
     hint_eqb (python c) h = true →
     create_field_from_type_hint h converters default name
       = Ok (ConverterField d c VNone no_options)) ∧
  (unmatched →
   ∀ a, h = HList (Some a) →
     create_field_from_type_hint a converters VNone None
       = create_field_from_type_hint a [] VNone None →
     create_field_from_type_hint h converters default name
       = (items ← create_field_from_type_hint a converters VNone None;
          Ok (RepeatField d items no_options))) ∧
  (unmatched →
   ∀ t, h = HType t → is_scalar_hint h = false → is_message t = true →
     create_field_from_type_hint h converters default name
       = Ok (Field d (inl t) VNone no_options)) ∧
  (unmatched →
   h = HAny ∨ (∃ t, h = HType t ∧ is_scalar_hint h = false ∧ is_message t = false) →
     create_field_from_type_hint h converters default name
       = Raise (NotImplementedError ("Unable to generate field for " +:+ hint_str h))).
Proof.
  intros d unmatched. repeat split.
  - intros t -> Hs. cbn -[is_scalar_hint]. by rewrite Hs.
  - intros Hs pre c post -> Hpre Hc.
    destruct h as [t| |arg]; cbn -[is_scalar_hint];
      rewrite ?Hs, (find_first _ _ _ _ Hpre Hc); done.
  - intros Hun a -> Ha. cbn. rewrite (find_none _ _ Hun), Ha.
    by destruct (create_field_from_type_hint a [] VNone None).
  - intros Hun t -> Hs Hm. cbn -[is_scalar_hint]. by rewrite Hs, (find_none _ _ Hun), Hm.
  - intros Hun [-> | (t & -> & Hs & Hm)]; cbn -[is_scalar_hint hint_str].
    + by rewrite (find_none _ _ Hun).
    + by rewrite Hs, (find_none _ _ Hun), Hm.
Qed.

Lemma create_field_from_type_hint_spec_witness :
  create_field_from_type_hint (HType TInt) [StringValueConverter] (VInt 1) (Some "n")
    = Ok (Field {| _name := Some "n"; _json_name := None |} (inl TInt) (VInt 1) no_options) ∧
  create_field_from_type_hint (HType datetime)
      [StringValueConverter; DateTimeConverter] VNone (Some "at")
    = Ok (ConverterField {| _name := Some "at"; _json_name := None |}
            DateTimeConverter VNone no_options) ∧
  create_field_from_type_hint (HList (Some (HType TStr))) [DateTimeConverter] VNone (Some "tags")
    = Ok (RepeatField {| _name := Some "tags"; _json_name := None |}
            (Field unnamed (inl TStr) VNone no_options) no_options) ∧
  create_field_from_type_hint (HType (TMessage "Hello" [])) [DateTimeConverter] VNone None
    = Ok (Field unnamed (inl (TMessage "Hello" [])) VNone no_options) ∧
  create_field_from_type_hint HAny [DateTimeConverter] VNone None
    = Raise (NotImplementedError "Unable to generate field for typing.Any").
Proof.
  split; [|split; [|split; [|split]]].
  - exact (proj1 (create_field_from_type_hint_spec (HType TInt) [StringValueConverter]
                    (VInt 1) (Some "n")) TInt eq_refl eq_refl).
  - refine (proj1 (proj2 (create_field_from_type_hint_spec
                    (HType datetime)
                    [StringValueConverter; DateTimeConverter] VNone (Some "at")))
             eq_refl [StringValueConverter] DateTimeConverter [] eq_refl _ eq_refl).
    repeat constructor.
  - refine (proj1 (proj2 (proj2 (create_field_from_type_hint_spec
                    (HList (Some (HType TStr))) [DateTimeConverter] VNone (Some "tags"))))
             _ (HType TStr) eq_refl eq_refl).
    repeat constructor.
  - refine (proj1 (proj2 (proj2 (proj2 (create_field_from_type_hint_spec
                    (HType (TMessage "Hello" [])) [DateTimeConverter] VNone None))))
             _ _ eq_refl eq_refl eq_refl).
    repeat constructor.
  - refine (proj2 (proj2 (proj2 (proj2 (create_field_from_type_hint_spec
                    HAny [DateTimeConverter] VNone None))))
             _ (or_introl eq_refl)).
    repeat constructor.
Defined.

(** C6 as stated fails: [str] is the native type of a converter at hand, and
    the field derived for it is a plain field. *)
Lemma scalar_hint_shadows_converter :
  hint_eqb (python StringValueConverter) (HType TStr) = true ∧
  create_field_from_type_hint (HType TStr) [StringValueConverter] VNone None
    = Ok (Field unnamed (inl TStr) VNone no_options).
Proof. by vm_compute. Qed.

(** The converters are not handed to the derivation of the item field: a
    hint that a converter field is derived for is not one a list can be of. *)
Lemma list_hint_drops_converters :
  let datetime := HType datetime in
  create_field_from_type_hint datetime [DateTimeConverter] VNone None
    = Ok (ConverterField unnamed DateTimeConverter VNone no_options) ∧
  create_field_from_type_hint (HList (Some datetime)) [DateTimeConverter] VNone None
    = Raise (NotImplementedError
               "Unable to generate field for <class 'datetime.datetime'>").
Proof. by vm_compute. Qed.

(** ** Insertion-ordered mappings *)

Lemma dict_get_set_eq {A} k (v : A) d : dict_get k (dict_set k v d) = Some v.
Proof.
  induction d as [|[k' v'] d IH]; simpl.
  - by rewrite decide_True.
  - destruct (decide (k' = k)) as [->|Hne]; simpl.
    + by rewrite decide_True.
    + by rewrite decide_False.
Qed.

Lemma dict_get_set_ne {A} k k' (v : A) d :
  k ≠ k' → dict_get k' (dict_set k v d) = dict_get k' d.
Proof.
  intros Hne. induction d as [|[k0 v0] d IH]; simpl.
  - by rewrite decide_False.
  - destruct (decide (k0 = k)) as [->|Hne0]; simpl.
    + by rewrite !decide_False.
    + destruct (decide (k0 = k')); [done|]. apply IH.
Qed.

Lemma dict_get_None {A} k (d : list (string * A)) : dict_get k d = None ↔ k ∉ d.*1.
Proof.
  induction d as [|[k' v'] d IH]; simpl.
  - split; [intros _; apply not_elem_of_nil | reflexivity].
  - rewrite not_elem_of_cons. destruct (decide (k' = k)) as [->|Hne].
    + split; [discriminate | intros [Hk _]; by destruct Hk].
    + rewrite IH. split; [by split | by intros [_ Hk]].
Qed.

Lemma dict_has_true {A} k (d : list (string * A)) :
  dict_has k d = true ↔ is_Some (dict_get k d).
Proof. unfold dict_has. by rewrite bool_decide_eq_true. Qed.

Lemma dict_has_false {A} k (d : list (string * A)) :
  dict_has k d = false ↔ dict_get k d = None.
Proof. unfold dict_has. by rewrite bool_decide_eq_false, eq_None_not_Some. Qed.

Lemma dict_get_filter {A} (P : string * A → Prop) `{!∀ kv, Decision (P kv)} k
    (d : list (string * A)) :
  (∀ v, P (k, v)) → dict_get k (filter P d) = dict_get k d.
Proof.
  intros HP. induction d as [|[k' v'] d IH]; [done|].
  rewrite filter_cons. simpl. destruct (decide (P (k', v'))) as [HP'|HP']; simpl.
  - by rewrite IH.
  - rewrite IH. destruct (decide (k' = k)) as [->|]; [|done]. destruct (HP' (HP v')).
Qed.

Lemma dict_set_fresh {A} k (v : A) d : k ∉ d.*1 → dict_set k v d = d ++ [(k, v)].
Proof.
  induction d as [|[k' v'] d IH]; simpl; [done|].
  rewrite not_elem_of_cons. intros [Hne Hk]. rewrite decide_False by done.
  by rewrite IH.
Qed.

Lemma dict_of_list_NoDup {A} (l : list (string * A)) : NoDup l.*1 → dict_of_list l = l.
Proof.
  unfold dict_of_list. intros Hl.
  enough (∀ acc, NoDup (acc ++ l).*1 →
            foldl (λ d kv, dict_set kv.1 kv.2 d) acc l = acc ++ l) as H
    by exact (H [] Hl).
  clear Hl. induction l as [|[k v] l IH]; intros acc Hacc; simpl.
  - by rewrite app_nil_r.
  - rewrite fmap_app, fmap_cons in Hacc. simpl in Hacc.
    apply NoDup_app in Hacc as (Hacc & Hdisj & Hl).
    rewrite dict_set_fresh.
    + rewrite IH; [by rewrite <-app_assoc|].
      rewrite <-app_assoc, fmap_app. simpl. apply NoDup_app. done.
    + intros Hk. apply (Hdisj k Hk). apply elem_of_cons. by left.
Qed.

(** ** Decoding: required fields and unknown keys *)

Section Decode.
Variable sys_modules : modules.
Variable validate : value → pytype → option exn.
Variable attribute : field → string.
Variable optional : field → bool.

Lemma decode_fields_missing df d fields kf :
  kf ∈ fields → optional kf.2 = false → dict_get (attribute kf.2) d = None →
  ∀ message, raises (decode_fields attribute optional df (VDict d) fields message).
Proof.
  intros Hin Hopt Hget. induction fields as [|[k f] fields IH]; intros message.
  { by apply elem_of_nil in Hin. }
  apply elem_of_cons in Hin as [->|Hin]; cbn.
  - apply dict_has_false in Hget. cbn in *. rewrite Hget. cbn. rewrite Hopt. by eexists.
  - destruct (dict_has (attribute f) d) eqn:Hhas; cbn.
    + apply dict_has_true in Hhas as [x Hx]. rewrite Hx. cbn.
      destruct (df x f) as [y|e]; cbn; [|by eexists].
      destruct (py_setitem message (attribute f) y) as [message'|e]; cbn; [|by eexists].
      by apply IH.
    + destruct (optional f); [by apply IH | by eexists].
Qed.

Lemma decode_fields_strip (P : string * value → Prop) `{!∀ kv, Decision (P kv)}
    df d fields :
  Forall (λ kf : string * field, ∀ v, P (attribute kf.2, v)) fields →
  ∀ message,
    decode_fields attribute optional df (VDict d) fields message
    = decode_fields attribute optional df (VDict (filter P d)) fields message.
Proof.
  induction 1 as [|[k f] fields HP _ IH]; intros message; [done|].
  cbn. unfold dict_has. rewrite (dict_get_filter P _ d HP).
  destruct (bool_decide _); cbn; [|by rewrite IH].
  destruct (dict_get (attribute f) d) as [x|]; cbn; [|done].
  destruct (df x f) as [y|e]; cbn; [|done].
  destruct (py_setitem message (attribute f) y); cbn; [|done]. apply IH.
Qed.

Lemma decode_fields_ValueError df d fields kf :
  kf ∈ fields → optional kf.2 = false → dict_get (attribute kf.2) d = None →
  Forall (λ kf' : string * field,
    ∀ x, dict_get (attribute kf'.2) d = Some x → ∃ y, df x kf'.2 = Ok y) fields →
  ∀ c stored,
    decode_fields attribute optional df (VDict d) fields (VMsg c stored) = Raise ValueError.
Proof.
  intros Hin Hopt Hget Hall. induction Hall as [|[k f] fields Hf _ IH]; intros c stored.
  { by apply elem_of_nil in Hin. }
  cbn in Hf. cbn. unfold dict_has.
  destruct (dict_get (attribute f) d) as [x|] eqn:Hx.
  - rewrite bool_decide_true by done. cbn. destruct (Hf x eq_refl) as [y ->]. cbn.
    apply elem_of_cons in Hin as [->|Hin]; [cbn in Hget; congruence|]. by apply IH.
  - rewrite bool_decide_false by (by intros [? ?]). cbn.
    apply elem_of_cons in Hin as [->|Hin]; [cbn in Hopt; by rewrite Hopt|].
    destruct (optional f); [by apply IH | done].
Qed.

(** C2. Decoding an object for a message class raises when the object lacks
    the slot of a field that is not optional, and what it raises is
    [ValueError] when the validator lets the object through and the slots
    the object has decode. The keys of the object that no field addresses
    do not matter to [_decode], and do not matter to [decode] when they do
    not matter to the validator. *)
Theorem decode_required_and_unknown fuel name fields d :
  let T := TMessage name fields in
  let d' := strip_unknown attribute T d in
  let decode_ := decode sys_modules validate attribute optional in
  (∀ kf, kf ∈ fields → optional kf.2 = false → dict_get (attribute kf.2) d = None →
     raises (decode_ fuel (VDict d) T) ∧
     (validate (VDict d) T = None →
      Forall (λ kf' : string * field,
        ∀ x, dict_get (attribute kf'.2) d = Some x →
             ∃ y, decode_field sys_modules (decode_ fuel) x kf'.2 = Ok y) fields →
      decode_ (S fuel) (VDict d) T = Raise ValueError)) ∧
  (∀ self_decode,
     _decode sys_modules attribute optional self_decode (VDict d) T
     = _decode sys_modules attribute optional self_decode (VDict d') T) ∧
  (validate (VDict d) T = validate (VDict d') T →
     decode_ fuel (VDict d) T = decode_ fuel (VDict d') T).
Proof.
  intros T d' decode_.
  assert (∀ self_decode,
     _decode sys_modules attribute optional self_decode (VDict d) T
     = _decode sys_modules attribute optional self_decode (VDict d') T) as Hdec.
  { intros self_decode. unfold _decode. cbn.
    apply decode_fields_strip.
    apply Forall_forall. intros kf Hkf v. unfold attributes. cbn.
    apply (list_elem_of_fmap_2 (λ kf, attribute kf.2)). done. }
  split; [|split; [done|]].
  - intros kf Hin Hopt Hget. split.
    + unfold decode_. destruct fuel as [|n]; cbn; [by eexists|].
      destruct (validate (VDict d) T); [by eexists|].
      unfold _decode. cbn. by eapply decode_fields_missing.
    + intros Hval Hall. unfold decode_. cbn [decode]. rewrite Hval.
      unfold _decode. cbn. by eapply decode_fields_ValueError.
  - intros Hval. unfold decode_. destruct fuel as [|n]; cbn [decode]; [done|].
    rewrite <-Hval. destruct (validate (VDict d) T); [done|]. apply Hdec.
Qed.

End Decode.

(** ** Encoding and decoding back *)

Lemma is_None (v : value) : {v = VNone} + {v ≠ VNone}.
Proof. destruct v; (by left) || (by right). Qed.

Lemma conforms_field_mono sys_modules (C1 C2 : value → pytype → Prop) :
  (∀ v t, C1 v t → C2 v t) →
  ∀ f v, conforms_field sys_modules C1 v f → conforms_field sys_modules C2 v f.
Proof.
  intros HC. induction f as [d ty dflt o|d c dflt o|d items IH o|d values IH o];
    intros v [->|Hv]; try (by left); right.
  - destruct Hv as (t & Ht & Hv). exists t. split; [done|].
    destruct (is_message t); [by apply HC | done].
  - destruct Hv as (w & Hw & Hc & Hconv). exists w. split; [done|]. split; [by apply HC|done].
  - destruct Hv as (l & -> & Hl). exists l. split; [done|].
    eapply Forall_impl; [exact Hl|]. intros x Hx. by apply IH.
  - destruct Hv as (dd & -> & Hnd & Hl). exists dd. split; [done|]. split; [done|].
    eapply Forall_impl; [exact Hl|]. intros x Hx. by apply IH.
Qed.

Lemma conforms_S sys_modules attribute optional depth v cls :
  conforms sys_modules attribute optional depth v cls →
  conforms sys_modules attribute optional (S depth) v cls.
Proof.
  revert v cls. induction depth as [|n IH]; intros v cls; [done|].
  intros (name & fields & stored & -> & -> & Hnd & Hkeys & Hall).
  exists name, fields, stored. repeat split; try done.
  eapply Forall_impl; [exact Hall|]. intros kf Hkf. cbn beta in *.
  destruct (dict_get _ stored); [|done].
  eapply conforms_field_mono; [|exact Hkf]. apply IH.
Qed.

Lemma conforms_le sys_modules attribute optional depth fuel v cls :
  (depth ≤ fuel)%nat →
  conforms sys_modules attribute optional depth v cls →
  conforms sys_modules attribute optional fuel v cls.
Proof.
  intros Hle Hc. induction Hle as [|fuel _ IH]; [done|]. by apply conforms_S.
Qed.

Lemma dict_get_Forall2 (R : value → value → Prop) k (d1 d2 : list (string * value)) :
  Forall2 (λ a b, a.1 = b.1 ∧ R a.2 b.2) d1 d2 →
  option_Forall2 R (dict_get k d1) (dict_get k d2).
Proof.
  induction 1 as [|[k1 v1] [k2 v2] d1 d2 [Hk Hv] _ IH]; simpl in *; [constructor|].
  subst k2. destruct (decide (k1 = k)); [by constructor | done].
Qed.

Section Roundtrip.
Variable sys_modules : modules.
Variable validate : value → pytype → option exn.
Variable attribute : field → string.
Variable optional : field → bool.

Local Abbreviation conforms_ := (conforms sys_modules attribute optional).
Local Abbreviation encode_ := (encode sys_modules attribute).
Local Abbreviation decode_ := (decode sys_modules validate attribute optional).

(** The validator lets through what [encode] makes of a message that
    conforms to its class. *)
Hypothesis validator_accepts :
  ∀ depth fuel v cls e,
    conforms_ depth v cls → encode_ fuel v cls = Ok e → validate e cls = None.

Lemma encode_is_dict fuel v cls e : encode_ fuel v cls = Ok e → ∃ d, e = VDict d.
Proof.
  destruct fuel as [|n]; [done|]. cbn.
  destruct (get_fields cls); cbn; [|done].
  destruct (encode_fields _ _ _ _ _); cbn; [|done]. intros [= <-]. by eexists.
Qed.

(** A loop of [encode] that does not fail stores the encoding of each slot
    the message has. *)
Lemma encode_fields_ok ef name stored fields acc :
  Forall (λ kf : string * field,
    ∀ x, dict_get (attribute kf.2) stored = Some x → ∃ e, ef x kf.2 = Ok e) fields →
  ∃ msg, encode_fields attribute ef (VMsg name stored) fields acc = Ok msg ∧
    (∀ k, k ∉ attributes attribute fields → dict_get k msg = dict_get k acc) ∧
    (NoDup (attributes attribute fields) → ∀ kf, kf ∈ fields →
       match dict_get (attribute kf.2) stored with
       | Some x => ∃ e, ef x kf.2 = Ok e ∧ dict_get (attribute kf.2) msg = Some e
       | None => dict_get (attribute kf.2) msg = dict_get (attribute kf.2) acc
       end).
Proof.
  intros Hall. revert acc. induction Hall as [|[k f] fields Hf _ IH]; intros acc.
  { exists acc. split; [done|]. split; [done|]. intros _ kf Hkf. by apply elem_of_nil in Hkf. }
  cbn in Hf. cbn -[attributes]. unfold dict_has.
  destruct (dict_get (attribute f) stored) as [x|] eqn:Hx.
  - rewrite bool_decide_true by done. cbn -[attributes].
    destruct (Hf x eq_refl) as [e He]. rewrite He. cbn -[attributes].
    destruct (IH (dict_set (attribute f) e acc)) as (msg & Hmsg & Hout & Hin).
    exists msg. split; [done|]. split.
    + intros k0 Hk. cbn in Hk. apply not_elem_of_cons in Hk as [Hne Hk].
      rewrite (Hout k0 Hk). by apply dict_get_set_ne.
    + cbn. intros [Hfresh Hnd]%NoDup_cons kf [->|Hkf]%elem_of_cons.
      * cbn. rewrite Hx. exists e. split; [done|].
        rewrite (Hout _ Hfresh). apply dict_get_set_eq.
      * specialize (Hin Hnd kf Hkf).
        destruct (dict_get (attribute kf.2) stored); [done|].
        rewrite Hin. apply dict_get_set_ne. intros Heq. apply Hfresh.
        rewrite Heq. by apply (list_elem_of_fmap_2 (λ kf, attribute kf.2)).
  - rewrite bool_decide_false by (by intros [? ?]). cbn -[attributes].
    destruct (IH acc) as (msg & Hmsg & Hout & Hin).
    exists msg. split; [done|]. split.
    + intros k0 Hk. cbn in Hk. apply not_elem_of_cons in Hk as [Hne Hk]. by apply Hout.
    + cbn. intros [Hfresh Hnd]%NoDup_cons kf [->|Hkf]%elem_of_cons.
      * cbn. rewrite Hx. by apply Hout.
      * by apply Hin.
Qed.

(** A loop of [_decode] that does not fail stores the decoding of each slot
    the object has. *)
Lemma decode_fields_ok df msg name fields stored0 :
  Forall (λ kf : string * field,
    match dict_get (attribute kf.2) msg with
    | Some e => ∃ v', df e kf.2 = Ok v'
    | None => optional kf.2 = true
    end) fields →
  ∃ stored',
    decode_fields attribute optional df (VDict msg) fields (VMsg name stored0)
      = Ok (VMsg name stored') ∧
    (∀ k, k ∉ attributes attribute fields → dict_get k stored' = dict_get k stored0) ∧
    (NoDup (attributes attribute fields) → ∀ kf, kf ∈ fields →
       match dict_get (attribute kf.2) msg with
       | Some e => ∃ v', df e kf.2 = Ok v' ∧ dict_get (attribute kf.2) stored' = Some v'
       | None => dict_get (attribute kf.2) stored' = dict_get (attribute kf.2) stored0
       end).
Proof.
  intros Hall. revert stored0. induction Hall as [|[k f] fields Hf _ IH]; intros stored0.
  { exists stored0. split; [done|]. split; [done|]. intros _ kf Hkf. by apply elem_of_nil in Hkf. }
  cbn in Hf. cbn -[attributes]. unfold dict_has.
  destruct (dict_get (attribute f) msg) as [e|] eqn:He.
  - rewrite bool_decide_true by done. cbn -[attributes].
    destruct Hf as [v' Hv']. rewrite Hv'. cbn -[attributes].
    destruct (IH (dict_set (attribute f) v' stored0)) as (stored' & Hdec & Hout & Hin).
    exists stored'. split; [done|]. split.
    + intros k0 Hk. cbn in Hk. apply not_elem_of_cons in Hk as [Hne Hk].
      rewrite (Hout k0 Hk). by apply dict_get_set_ne.
    + cbn. intros [Hfresh Hnd]%NoDup_cons kf [->|Hkf]%elem_of_cons.
      * cbn. rewrite He. exists v'. split; [done|].
        rewrite (Hout _ Hfresh). apply dict_get_set_eq.
      * specialize (Hin Hnd kf Hkf).
        destruct (dict_get (attribute kf.2) msg); [done|].
        rewrite Hin. apply dict_get_set_ne. intros Heq. apply Hfresh.
        rewrite Heq. by apply (list_elem_of_fmap_2 (λ kf, attribute kf.2)).
  - rewrite bool_decide_false by (by intros [? ?]). cbn -[attributes]. rewrite Hf.
    destruct (IH stored0) as (stored' & Hdec & Hout & Hin).
    exists stored'. split; [done|]. split.
    + intros k0 Hk. cbn in Hk. apply not_elem_of_cons in Hk as [Hne Hk]. by apply Hout.
    + cbn. intros [Hfresh Hnd]%NoDup_cons kf [->|Hkf]%elem_of_cons.
      * cbn. rewrite He. by apply Hout.
      * by apply Hin.
Qed.

Lemma mapM_there_and_back (enc dec : value → outcome value) l :
  Forall (there_and_back enc dec) l →
  ∃ es l', mapM enc l = Ok es ∧ mapM dec es = Ok l' ∧ Forall2 py_eq l' l.
Proof.
  induction 1 as [|x l (e & x' & He & Hx' & Heq) _ (es & l' & Hes & Hl' & Hall)].
  { exists [], []. by repeat split. }
  exists (e :: es), (x' :: l'). cbn. rewrite He. cbn. rewrite Hes. cbn.
  rewrite Hx'. cbn. rewrite Hl'. cbn. repeat split. by constructor.
Qed.

Lemma entries_there_and_back (enc dec : value → outcome value) (d : list (string * value)) :
  Forall (λ kv, there_and_back enc dec kv.2) d →
  ∃ es d',
    mapM (λ kv : string * value, y ← enc kv.2; Ok (kv.1, y)) d = Ok es ∧
    mapM (λ kv : string * value, y ← dec kv.2; Ok (kv.1, y)) es = Ok d' ∧
    es.*1 = d.*1 ∧ d'.*1 = d.*1 ∧
    Forall2 (λ a b, a.1 = b.1 ∧ py_eq a.2 b.2) d' d.
Proof.
  induction 1 as [|[k x] d (e & x' & He & Hx' & Heq) _
                    (es & d' & Hes & Hd' & Hk1 & Hk2 & Hall)].
  { exists [], []. by repeat split. }
  exists ((k, e) :: es), ((k, x') :: d'). cbn in *. rewrite He. cbn. rewrite Hes. cbn.
  rewrite Hx'. cbn. rewrite Hd'. cbn. rewrite Hk1, Hk2. repeat split. by constructor.
Qed.

Lemma field_there_and_back n :
  (∀ v cls, conforms_ n v cls →
     there_and_back (λ v, encode_ n v cls) (λ e, decode_ n e cls) v) →
  ∀ f v, conforms_field sys_modules (conforms_ n) v f →
    there_and_back (λ v, encode_field sys_modules (encode_ n) v f)
                   (λ e, decode_field sys_modules (decode_ n) e f) v.
Proof.
  intros Hmsg. induction f as [d ty dflt o|d c dflt o|d items IH o|d values IH o];
    intros v Hv; destruct (is_None v) as [->|Hnone];
    try (exists VNone, VNone; repeat split; apply py_eq_refl);
    destruct Hv as [->|Hv]; try done.
  - destruct Hv as (t & Ht & Hv). destruct (is_message t) eqn:Htm.
    + destruct (Hmsg v t Hv) as (e & v' & He & Hv' & Heq).
      destruct (encode_is_dict _ _ _ _ He) as [dd ->].
      exists (VDict dd), v'. repeat split; [|by cbn -[resolve_type]; rewrite Ht; cbn; rewrite Htm|done].
      destruct v; try done; cbn -[resolve_type]; rewrite Ht; cbn; by rewrite Htm.
    + exists v, v. repeat split; [|by eapply decode_field_plain|apply py_eq_refl].
      destruct v; try done; cbn -[resolve_type]; rewrite Ht; cbn; by rewrite Htm.
  - destruct Hv as (w & Hw & Hc & Hconv).
    destruct (Hmsg w (wire c) Hc) as (e & w' & He & Hw' & Heq).
    destruct (Hconv w' Heq) as (v' & Hv' & Heqv).
    destruct (encode_is_dict _ _ _ _ He) as [dd ->].
    exists (VDict dd), v'. repeat split; [|by cbn; rewrite Hw'|done].
    destruct v; try done; cbn; rewrite Hw; cbn; done.
  - destruct Hv as (l & -> & Hl).
    destruct (mapM_there_and_back _ _ l (Forall_impl _ _ _ Hl (λ x, IH x)))
      as (es & l' & Hes & Hl' & Hall).
    exists (VList es), (VList l'). cbn. rewrite Hes. cbn. rewrite Hl'. cbn.
    repeat split. by constructor.
  - destruct Hv as (dd & -> & Hnd & Hl).
    destruct (entries_there_and_back _ _ dd (Forall_impl _ _ _ Hl (λ kv, IH kv.2)))
      as (es & d' & Hes & Hd' & Hk1 & Hk2 & Hall).
    exists (VDict es), (VDict d'). cbn. unfold dict_comprehension.
    rewrite Hes. cbn. rewrite (dict_of_list_NoDup es) by (by rewrite Hk1).
    rewrite Hd'. cbn. rewrite (dict_of_list_NoDup d') by (by rewrite Hk2).
    repeat split. constructor. intros k. by apply dict_get_Forall2.
Qed.

Lemma message_there_and_back n v cls :
  conforms_ n v cls →
  there_and_back (λ v, encode_ n v cls) (λ e, decode_ n e cls) v.
Proof.
  revert v cls. induction n as [|n IHn]; intros v cls Hc; [done|].
  pose proof Hc as (name & fields & stored & -> & -> & Hnd & Hkeys & Hall).
  pose proof (field_there_and_back n IHn) as Hfield.
  set (ef := encode_field sys_modules (encode_ n)).
  set (df := decode_field sys_modules (decode_ n)).
  assert (Forall (λ kf : string * field,
            ∀ x, dict_get (attribute kf.2) stored = Some x →
                 there_and_back (λ v, ef v kf.2) (λ e, df e kf.2) x) fields) as Hrt.
  { eapply Forall_impl; [exact Hall|]. intros kf Hkf x Hx. cbn beta in Hkf.
    rewrite Hx in Hkf. by apply Hfield. }
  destruct (encode_fields_ok ef name stored fields []) as (msg & Hmsg & Hmout & Hmin).
  { eapply Forall_impl; [exact Hrt|]. intros kf Hkf x Hx.
    destruct (Hkf x Hx) as (e & _ & He & _). by exists e. }
  specialize (Hmin Hnd).
  assert (encode_ (S n) (VMsg name stored) (TMessage name fields) = Ok (VDict msg)) as Henc.
  { cbn. fold ef. by rewrite Hmsg. }
  destruct (decode_fields_ok df msg name fields []) as (stored' & Hdec & Hsout & Hsin).
  { apply Forall_forall. intros kf Hkf. specialize (Hmin kf Hkf).
    rewrite Forall_forall in Hrt, Hall. specialize (Hrt kf Hkf). specialize (Hall kf Hkf).
    cbn beta in Hall. destruct (dict_get (attribute kf.2) stored) as [x|].
    - destruct Hmin as (e & He & ->). destruct (Hrt x eq_refl) as (e' & v' & He' & Hv' & _).
      exists v'. congruence.
    - by rewrite Hmin. }
  specialize (Hsin Hnd).
  exists (VDict msg), (VMsg name stored'). split; [done|]. split.
  { cbn [decode]. rewrite (validator_accepts _ _ _ _ _ Hc Henc).
    unfold _decode. cbn. fold df. done. }
  constructor. intros k.
  destruct (decide (k ∈ attributes attribute fields)) as [Hk|Hk].
  - apply list_elem_of_fmap in Hk as (kf & -> & Hkf).
    specialize (Hmin kf Hkf). specialize (Hsin kf Hkf).
    rewrite Forall_forall in Hrt. specialize (Hrt kf Hkf).
    destruct (dict_get (attribute kf.2) stored) as [x|].
    + destruct Hmin as (e & He & Hmsge). rewrite Hmsge in Hsin.
      destruct Hsin as (v' & Hv' & ->).
      destruct (Hrt x eq_refl) as (e' & v'' & He' & Hv'' & Heq).
      constructor. congruence.
    + rewrite Hmin in Hsin. cbn in Hsin. rewrite Hsin. constructor.
  - rewrite (Hsout k Hk). cbn.
    assert (dict_get k stored = None) as ->; [|constructor].
    apply dict_get_None. intros Hin. by apply Hk, Hkeys.
Qed.

(** C1, amended. A message that conforms to its class, encoded and then
    decoded, comes back equal, once the depth of the calls allowed is the
    depth of the message or more. *)
Theorem decode_encode depth fuel m T :
  conforms_ depth m T → (depth ≤ fuel)%nat →
  ∃ e m', encode_ fuel m T = Ok e ∧ decode_ fuel e T = Ok m' ∧ py_eq m' m.
Proof.
  intros Hc Hle. apply (message_there_and_back fuel m T).
  by eapply conforms_le.
Qed.

End Roundtrip.

Lemma accept_all_accepts sys_modules attribute optional :
  ∀ (depth fuel : nat) v cls e,
    conforms sys_modules attribute optional depth v cls →
    encode sys_modules attribute fuel v cls = Ok e → accept_all e cls = None.
Proof. done. Qed.

Lemma decode_encode_witness :
  let m := VMsg "HelloRequest" [("tags", VList [VStr "a"; VStr "b"]); ("name", VStr "Alice")] in
  ∃ e m',
    encode [] attribute_of_name 2 m HelloRequest = Ok e ∧
    decode [] accept_all attribute_of_name optional_of_options 2 e HelloRequest = Ok m' ∧
    py_eq m' m.
Proof.
  intros m.
  apply (decode_encode [] accept_all attribute_of_name optional_of_options
           (accept_all_accepts [] attribute_of_name optional_of_options) 1 2 m HelloRequest);
    [|lia].
  cbn [conforms]. eexists _, _, _. split; [reflexivity|]. split; [reflexivity|].
  split; [|split].
  - apply NoDup_cons. split; [|apply NoDup_singleton].
    intros Hin. apply elem_of_cons in Hin as [Hin|Hin]; [discriminate Hin|].
    exact (proj1 (elem_of_nil _) Hin).
  - intros k Hk. apply elem_of_cons in Hk as [->|Hk].
    { apply elem_of_cons. right. apply elem_of_cons. left. reflexivity. }
    apply elem_of_cons in Hk as [->|Hk].
    { apply elem_of_cons. left. reflexivity. }
    destruct (proj1 (elem_of_nil _) Hk).
  - apply Forall_cons. split; [|apply Forall_cons; split; [|apply Forall_nil_2]].
    + right. exists TStr. split; [reflexivity|]. intros Hf. discriminate Hf.
    + right. exists [VStr "a"; VStr "b"]. split; [reflexivity|].
      apply Forall_cons. split; [|apply Forall_cons; split; [|apply Forall_nil_2]];
        right; exists TStr; (split; [reflexivity|]); intros Hf; discriminate Hf.
Defined.

(** C1 as stated fails: a message that has nothing for a field that is not
    optional encodes to an object that does not decode. *)
Lemma unset_required_field_does_not_come_back :
  encode [] attribute_of_name 2 (VMsg "HelloRequest" []) HelloRequest = Ok (VDict []) ∧
  decode [] accept_all attribute_of_name optional_of_options 2 (VDict []) HelloRequest
    = Raise ValueError.
Proof. by vm_compute. Qed.

(** Nor does a string held by a repeated field come back: it is encoded
    character by character. *)
Lemma string_in_repeated_field_comes_back_as_list :
  let m := VMsg "HelloRequest" [("name", VStr "Alice"); ("tags", VStr "ab")] in
  encode [] attribute_of_name 2 m HelloRequest
    = Ok (VDict [("name", VStr "Alice"); ("tags", VList [VStr "a"; VStr "b"])]) ∧
  decode [] accept_all attribute_of_name optional_of_options 2
      (VDict [("name", VStr "Alice"); ("tags", VList [VStr "a"; VStr "b"])]) HelloRequest
    = Ok (VMsg "HelloRequest" [("name", VStr "Alice"); ("tags", VList [VStr "a"; VStr "b"])]).
Proof. by vm_compute. Qed.

(** A schema of arrays of strings: the nested schema is reached through the
    name of the class, within the depth allowed. *)
Example encode_decode_SchemaMessage :
  let inner := [("type", VStr "string")] in
  let m := VMsg "SchemaMessage" [("type", VStr "array"); ("items", VMsg "SchemaMessage" inner)] in
  let e := VDict [("type", VStr "array"); ("items", VDict inner)] in
  encode reflect_modules attribute_of_name 2 m SchemaMessage = Ok e ∧
  decode reflect_modules accept_all attribute_of_name (λ _, true) 2 e SchemaMessage = Ok m ∧
  encode reflect_modules attribute_of_name 1 m SchemaMessage = Raise RecursionError ∧
  encode [] attribute_of_name 2 m SchemaMessage
    = Raise (ImportError "venom.rpc.reflect.openapi").
Proof. by vm_compute. Qed.

Lemma decode_required_and_unknown_witness :
  decode [] accept_all attribute_of_name optional_of_options 2
      (VDict [("tags", VList []); ("zz", VInt 1)]) HelloRequest
    = Raise ValueError ∧
  decode [] accept_all attribute_of_name optional_of_options 2
      (VDict [("zz", VInt 1); ("name", VStr "Alice")]) HelloRequest
  = decode [] accept_all attribute_of_name optional_of_options 2
      (VDict (strip_unknown attribute_of_name HelloRequest
                [("zz", VInt 1); ("name", VStr "Alice")])) HelloRequest.
Proof.
  split.
  - refine (proj2 (proj1 (decode_required_and_unknown [] accept_all attribute_of_name
                     optional_of_options 1 "HelloRequest" _
                     [("tags", VList []); ("zz", VInt 1)])
              ("name", Field (named "name") (inl TStr) VNone no_options) _ eq_refl eq_refl)
              eq_refl _).
    + apply elem_of_cons. left. reflexivity.
    + apply Forall_cons. split; [intros x Hx; discriminate Hx|].
      apply Forall_cons. split; [|apply Forall_nil_2].
      intros x Hx. injection Hx as <-. exists (VList []). reflexivity.
  - exact (proj2 (proj2 (decode_required_and_unknown [] accept_all attribute_of_name
                     optional_of_options 2 "HelloRequest" _
                     [("zz", VInt 1); ("name", VStr "Alice")])) eq_refl).
Defined.

(** ** The view of a repeated field *)

Lemma dict_get_fmap {A B} (g : A → B) k (d : list (string * A)) :
  dict_get k (prod_map id g <$> d) = g <$> dict_get k d.
Proof.
  induction d as [|[k' v'] d IH]; [done|]. cbn.
  destruct (decide (k' = k)); [done|]. apply IH.
Qed.

Lemma encode_fields_inv attribute ef name stored fields acc msg :
  encode_fields attribute ef (VMsg name stored) fields acc = Ok msg →
  Forall (λ kf : string * field,
    ∀ x, dict_get (attribute kf.2) stored = Some x → ∃ e, ef x kf.2 = Ok e) fields.
Proof.
  revert acc. induction fields as [|[k f] fields IH]; intros acc; [by constructor|].
  cbn. unfold dict_has. destruct (dict_get (attribute f) stored) as [x|] eqn:Hx.
  - rewrite bool_decide_true by done. cbn. destruct (ef x f) as [e|] eqn:He; cbn; [|done].
    intros Hmsg. constructor; [|by eapply IH].
    cbn. intros x' Hx'. exists e. congruence.
  - rewrite bool_decide_false by (by intros [? ?]). cbn.
    intros Hmsg. constructor; [|by eapply IH]. cbn. congruence.
Qed.

(** What [encode] puts under the slot of a field is the encoding of what the
    message has there. *)
Lemma encode_slot sys_modules attribute fuel name stored c fields kf x e :
  NoDup (attributes attribute fields) → kf ∈ fields →
  dict_get (attribute kf.2) stored = Some x →
  encode sys_modules attribute (S fuel) (VMsg name stored) (TMessage c fields) = Ok e →
  ∃ y, encode_field sys_modules (encode sys_modules attribute fuel) x kf.2 = Ok y ∧
       py_getitem e (attribute kf.2) = Ok y.
Proof.
  intros Hnd Hkf Hx. cbn.
  destruct (encode_fields _ _ _ _ _) as [msg|] eqn:Hmsg; cbn; [|done].
  intros [= <-].
  destruct (encode_fields_ok attribute _ name stored fields [] (encode_fields_inv _ _ _ _ _ _ _ Hmsg))
    as (msg' & Hmsg' & _ & Hin).
  rewrite Hmsg in Hmsg'. injection Hmsg' as <-.
  specialize (Hin Hnd kf Hkf). rewrite Hx in Hin. destruct Hin as (y & Hy & Hget).
  exists y. split; [done|]. cbn. by rewrite Hget.
Qed.

Section View.
Import _RepeatValueProxy.

(** Every way of reading a field whose slot refers to a list returns that
    list. *)
Lemma reads_of_holds name mem xs :
  holds name mem xs →
  Message_getitem name mem = Ok (VList xs) ∧
  __iter__ name mem = (Ok xs, mem) ∧
  __len__ name mem = (Ok (length xs), mem) ∧
  (∀ i, __getitem__ name i mem = (list_getitem i xs, mem)) ∧
  py_getitem (snapshot mem) name = Ok (VList xs).
Proof.
  intros (l & Hl & <-). unfold Message_getitem, __iter__, __len__, __getitem__, _sequence.
  rewrite Hl. cbn. repeat split. unfold snapshot. cbn.
  rewrite dict_get_fmap, Hl. done.
Qed.

Lemma write_back_holds name mem :
  dict_get name (values mem) = None ∨ (∃ l, dict_get name (values mem) = Some (CList l)) →
  ∃ l mem',
    write_back name mem = (CList l, mem') ∧
    dict_get name (values mem') = Some (CList l) ∧
    deref mem' l = stored_sequence name mem.
Proof.
  unfold write_back, _sequence, stored_sequence.
  intros [Hnone | [l Hl]].
  - rewrite Hnone. eexists _, _. split; [done|]. cbn. split; [apply dict_get_set_eq|].
    unfold deref. cbn. apply lookup_total_insert_eq.
  - rewrite Hl. eexists _, _. split; [done|]. cbn. split; [apply dict_get_set_eq|done].
Qed.

(** C4. For the view that attribute access gives of a repeated field whose
    slot is yet unset or refers to a list: [insert], [del] and assignment
    at an index through the view leave the slot referring to a list that is
    the former sequence with the change made (or as it was, when the index
    is out of range and the call raises [IndexError]); and whenever the
    slot refers to a list, the view, [message[name]] and [encode] of the
    message give that list. *)
Theorem live_view f name mem index x
    (Hview : RepeatField__get__ f = Some name)
    (Hslot : dict_get name (values mem) = None ∨
             ∃ l, dict_get name (values mem) = Some (CList l)) :
  let old := stored_sequence name mem in
  (∃ mem', insert name index x mem = (Ok (), mem') ∧
           holds name mem' (list_insert_at index x old)) ∧
  (∃ mem', __delitem__ name index mem = (list_delitem index old ≫= λ _, Ok (), mem') ∧
           holds name mem' (match list_delitem index old with Ok new => new | Raise _ => old end)) ∧
  (∃ mem', __setitem__ name index x mem = (list_setitem index x old ≫= λ _, Ok (), mem') ∧
           holds name mem' (match list_setitem index x old with Ok new => new | Raise _ => old end)) ∧
  (∀ mem' xs, holds name mem' xs →
     Message_getitem name mem' = Ok (VList xs) ∧
     __iter__ name mem' = (Ok xs, mem') ∧
     __len__ name mem' = (Ok (length xs), mem') ∧
     (∀ i, __getitem__ name i mem' = (list_getitem i xs, mem')) ∧
     (∀ sys_modules attribute fuel c fields k e,
        NoDup (attributes attribute fields) → (k, f) ∈ fields → attribute f = name →
        encode sys_modules attribute (S fuel) (snapshot mem') (TMessage c fields) = Ok e →
        ∃ y, encode_field sys_modules (encode sys_modules attribute fuel) (VList xs) f = Ok y ∧
             py_getitem e name = Ok y)).
Proof.
  intros old. destruct (write_back_holds name mem Hslot) as (l & mem1 & Hwb & Hget & Hderef).
  fold old in Hderef. split; [|split; [|split]].
  - unfold insert. rewrite Hwb. eexists. split; [done|].
    exists l. cbn. split; [done|]. unfold deref at 1. cbn.
    rewrite lookup_total_insert_eq. by rewrite Hderef.
  - unfold __delitem__. rewrite Hwb, Hderef.
    destruct (list_delitem index old) as [new|e]; cbn; eexists; (split; [done|]);
      exists l; (split; [done|]); [|done].
    unfold deref. cbn. apply lookup_total_insert_eq.
  - unfold __setitem__. rewrite Hwb, Hderef.
    destruct (list_setitem index x old) as [new|e]; cbn; eexists; (split; [done|]);
      exists l; (split; [done|]); [|done].
    unfold deref. cbn. apply lookup_total_insert_eq.
  - intros mem' xs Hh.
    destruct (reads_of_holds name mem' xs Hh) as (Hm & Hi & Hn & Hg & _).
    repeat (split; [done|]).
    intros sys_modules attribute fuel c fields k e Hnd Hkf Hattr He.
    destruct Hh as (l' & Hl' & <-).
    destruct (encode_slot sys_modules attribute fuel (cls_name mem')
                (prod_map id (cell_value mem') <$> values mem') c fields (k, f)
                (VList (deref mem' l')) e Hnd Hkf) as (y & Hy & Hgety).
    + cbn. rewrite Hattr, dict_get_fmap, Hl'. done.
    + exact He.
    + exists y. cbn in Hgety. rewrite Hattr in Hgety. done.
Qed.

End View.

Lemma live_view_witness :
  let tags := RepeatField (named "tags") (Field unnamed (inl TStr) VNone no_options) no_options in
  let mem := {| lists := {[ 0%nat := [VStr "a"; VStr "c"] ]};
                cls_name := "HelloRequest";
                values := [("tags", CList 0)] |} in
  ∃ mem',
    _RepeatValueProxy.insert "tags" 1 (VStr "b") mem = (Ok (), mem') ∧
    holds "tags" mem' [VStr "a"; VStr "b"; VStr "c"].
Proof.
  intros tags mem.
  refine (proj1 (live_view tags "tags" mem 1 (VStr "b") eq_refl
                   (or_intror (ex_intro _ 0%nat eq_refl)))).
Defined.

(** ** Schema validation *)

Section ValidationFacts.
Variable repr_other : value → string.

Lemma raises_first_bind r1 r2 l1 l2 :
  raises_first r1 l1 → raises_first r2 l2 → raises_first (r1 ≫= λ _, r2) (l1 ++ l2).
Proof.
  destruct l1 as [|fl l1]; cbn.
  - by intros ->.
  - by intros ->.
Qed.

Lemma raises_first_check bad message path :
  raises_first (check bad message path)
    (if bad then [{| failure_message := message; failure_path := path |}] else []).
Proof. by destruct bad. Qed.

Lemma validate_length_first sc path v :
  raises_first (validate_length sc path v) (length_violations sc path v).
Proof.
  destruct v; try done. cbn.
  apply raises_first_bind; apply raises_first_check.
Qed.

Lemma validate_each_first (g : nat → value → outcome unit) (h : nat → value → list failure) l :
  (∀ i item, raises_first (g i item) (h i item)) →
  ∀ i, raises_first (validate_each g i l) (concat (imap (λ j, h (i + j)%nat) l)).
Proof.
  intros Hg. induction l as [|item l IH]; intros i; [done|].
  cbn [validate_each]. rewrite imap_cons, concat_cons.
  apply raises_first_bind.
  - rewrite Nat.add_0_r. apply Hg.
  - specialize (IH (S i)).
    erewrite imap_ext; [exact IH|]. intros j y _. cbn. f_equal. lia.
Qed.

Lemma validate_value_first sc f :
  ∀ path v,
    raises_first (validate_value repr_other sc f path v)
                 (violations_in repr_other sc f path v).
Proof.
  induction f as [d ty dflt o|d c dflt o|d items IH o|d values IH o]; intros path v;
    try apply validate_length_first.
  cbn. destruct v; try done. unfold items_violations. rewrite <-app_assoc.
  apply raises_first_bind; [apply raises_first_check|].
  apply raises_first_bind; [apply raises_first_check|].
  apply (validate_each_first
           (λ i item, validate_value repr_other sc items (path ++ [Index i]) item)
           (λ i item, violations_in repr_other sc items (path ++ [Index i]) item) l
           (λ i item, IH _ item) 0%nat).
Qed.

Lemma elem_of_concat {A} (x : A) (ls : list (list A)) :
  x ∈ concat ls → ∃ l, l ∈ ls ∧ x ∈ l.
Proof.
  induction ls as [|l ls IH]; cbn; [by intros ?%elem_of_nil|].
  intros [Hx|Hx]%elem_of_app.
  - exists l. split; [apply elem_of_cons; by left | done].
  - destruct (IH Hx) as (l' & Hl' & Hx'). exists l'. split; [|done].
    apply elem_of_cons. by right.
Qed.

Lemma length_violations_report fl sc path v :
  fl ∈ length_violations sc path v → failure_path fl = path ∧ reports repr_other fl v.
Proof.
  destruct v; try (by intros ?%elem_of_nil). cbn.
  intros [Hfl|Hfl]%elem_of_app.
  - destruct (below _ _); [|by apply elem_of_nil in Hfl].
    apply list_elem_of_singleton in Hfl as ->. split; [done|]. left. eexists. split; [done|].
    by left.
  - destruct (above _ _); [|by apply elem_of_nil in Hfl].
    apply list_elem_of_singleton in Hfl as ->. split; [done|]. left. eexists. split; [done|].
    by right.
Qed.

(** A violation in a value is at a path of indices into the value that leads
    to what its text is about. *)
Lemma violations_in_report fl sc f :
  ∀ path v,
    fl ∈ violations_in repr_other sc f path v →
    ∃ idx u, failure_path fl = path ++ (Index <$> idx) ∧
             at_path v (Index <$> idx) = Some u ∧ reports repr_other fl u.
Proof.
  assert (∀ path v, fl ∈ length_violations sc path v →
            ∃ idx u, failure_path fl = path ++ (Index <$> idx) ∧
                     at_path v (Index <$> idx) = Some u ∧ reports repr_other fl u) as Hlen.
  { intros path v [Hp Hr]%length_violations_report. exists [], v.
    split; [by rewrite app_nil_r|]. done. }
  induction f as [d ty dflt o|d c dflt o|d items IH o|d values IH o]; intros path v;
    try apply Hlen.
  cbn. destruct v; try (by intros ?%elem_of_nil).
  intros [Hfl|Hfl]%elem_of_app.
  - exists [], (VList l). split.
    + rewrite app_nil_r. unfold items_violations in Hfl.
      apply elem_of_app in Hfl as [Hfl|Hfl];
        (destruct (above _ _) || destruct (below _ _)); try (by apply elem_of_nil in Hfl);
        by apply list_elem_of_singleton in Hfl as ->.
    + split; [done|]. right. exists l. split; [done|]. unfold items_violations in Hfl.
      apply elem_of_app in Hfl as [Hfl|Hfl].
      * destruct (above _ _); [|by apply elem_of_nil in Hfl].
        apply list_elem_of_singleton in Hfl as ->. by left.
      * destruct (below _ _); [|by apply elem_of_nil in Hfl].
        apply list_elem_of_singleton in Hfl as ->. by right.
  - apply elem_of_concat in Hfl as (fls & Hfls & Hfl).
    apply elem_of_lookup_imap in Hfls as (i & item & -> & Hi).
    destruct (IH _ _ Hfl) as (idx & u & Hpath & Hat & Hr).
    exists (i :: idx), u. split; [by rewrite Hpath, <-app_assoc|].
    split; [|done]. cbn. by rewrite Hi.
Qed.

(** C3. The validator returns when no bound is broken and otherwise raises
    one failure, the first in the order of the fields and, within a repeated
    field, the item count before the items and the items from the first on.
    Every failure it can raise has a path that goes from a field of the
    message through indices to a value, and a text that quotes that value
    as too short or too long, or prints that list as too long or too
    short. *)
Theorem validate_reports_first c fields message :
  raises_first (MessageValidator_validate repr_other fields message)
               (violations repr_other fields message) ∧
  raised (MessageValidator_validate repr_other fields message)
    = head (violations repr_other fields message) ∧
  ∀ fl, fl ∈ violations repr_other fields message →
    ∃ k idx u,
      k ∈ fields.*1 ∧
      failure_path fl = Attr k :: (Index <$> idx) ∧
      at_path (VMsg c message) (failure_path fl) = Some u ∧
      reports repr_other fl u.
Proof.
  assert (raises_first (MessageValidator_validate repr_other fields message)
                       (violations repr_other fields message)) as Hfirst.
  { unfold violations. induction fields as [|[k f] fields IH]; [done|].
    cbn [MessageValidator_validate]. rewrite fmap_cons, concat_cons.
    apply raises_first_bind; [|exact IH]. cbn.
    destruct (schema (field_options f)) as [sc|]; [|done].
    destruct (dict_get k message) as [v|]; [|done].
    apply validate_value_first. }
  split; [done|]. split.
  - destruct (violations repr_other fields message) as [|[m p] fls]; cbn in *;
      by rewrite Hfirst.
  - intros fl Hfl. unfold violations in Hfl.
    apply elem_of_concat in Hfl as (fls & Hfls & Hfl).
    apply list_elem_of_fmap in Hfls as ([k f] & -> & Hkf). cbn in Hfl.
    destruct (schema (field_options f)) as [sc|]; [|by apply elem_of_nil in Hfl].
    destruct (dict_get k message) as [v|] eqn:Hv; [|by apply elem_of_nil in Hfl].
    apply violations_in_report in Hfl as (idx & u & Hpath & Hat & Hr).
    exists k, idx, u. split; [by apply (list_elem_of_fmap_2 fst _ (k, f))|].
    split; [done|]. split; [|done]. rewrite Hpath. cbn. by rewrite Hv.
Qed.

End ValidationFacts.

Lemma validate_reports_first_witness :
  let message := [("names", VList [VStr "xxx"; VStr "xxxxxxxxxx"])] in
  let fl := {| failure_message := "'xxxxxxxxxx' is too long";
               failure_path := [Attr "names"; Index 1] |} in
  raised (MessageValidator_validate repr_object NamesRequest message) = Some fl ∧
  ∃ k idx u,
    k ∈ NamesRequest.*1 ∧
    failure_path fl = Attr k :: (Index <$> idx) ∧
    at_path (VMsg "HelloRequest" message) (failure_path fl) = Some u ∧
    reports repr_object fl u.
Proof.
  intros message fl.
  pose proof (validate_reports_first repr_object "HelloRequest" NamesRequest message)
    as (_ & Hhead & Hall).
  split; [exact Hhead|]. apply Hall. apply elem_of_cons. left. reflexivity.
Defined.

(** The cases of [test_validate_string_length] and [test_validate_repeat]. *)
Example test_validate_string_length :
  MessageValidator_validate repr_object NameRequest [("name", VStr "x")]
    = Raise (ValidationError "'x' is too short" [Attr "name"]) ∧
  MessageValidator_validate repr_object NameRequest [("name", VStr "xxxxxxxxxx")]
    = Raise (ValidationError "'xxxxxxxxxx' is too long" [Attr "name"]) ∧
  MessageValidator_validate repr_object NameRequest [("name", VStr "xxx")] = Ok () ∧
  MessageValidator_validate repr_object NameRequest [("name", VStr "xxxx")] = Ok ().
Proof. by vm_compute. Qed.

Example test_validate_repeat :
  MessageValidator_validate repr_object NamesRequest [("names", VList [VStr "x"])]
    = Raise (ValidationError "'x' is too short" [Attr "names"; Index 0]) ∧
  MessageValidator_validate repr_object NamesRequest
      [("names", VList [VStr "xxx"; VStr "xxxxxxxxxx"])]
    = Raise (ValidationError "'xxxxxxxxxx' is too long" [Attr "names"; Index 1]) ∧
  MessageValidator_validate repr_object NamesRequest
      [("names", VList [VStr "xxx"; VStr "xxxx"])] = Ok () ∧
  MessageValidator_validate repr_object NamesRequest
      [("names", VList (replicate 10 (VStr "xxx")))]
    = Raise (ValidationError
        "['xxx', 'xxx', 'xxx', 'xxx', 'xxx', 'xxx', 'xxx', 'xxx', 'xxx', 'xxx'] is too long"
        [Attr "names"]).
Proof. by vm_compute. Qed.

(** ** Service names *)

















(** ** Attribute access *)

(** X3. Binding a descriptor to a name gives it that name only if it has
    none: a name given at declaration or by an earlier binding stays, a
    second binding changes nothing, and the wire name is left as it was. *)
Theorem set_name_once f n n' :
  name (__set_name__ f n) = Some (default n (name f)) ∧
  __set_name__ (__set_name__ f n) n' = __set_name__ f n ∧
  (∀ m, name f = Some m → __set_name__ f n = f) ∧
  _json_name (descriptor (__set_name__ f n)) = _json_name (descriptor f).
Proof.
  unfold __set_name__, name.
  destruct f as [[[m|] j] ? ? ?|[[m|] j] ? ? ?|[[m|] j] ? ?|[[m|] j] ? ?]; cbn; done.
Qed.

Lemma set_name_once_witness :
  __set_name__ (Field (named "is_in") (inl TStr) VNone no_options) "kind"
    = Field (named "is_in") (inl TStr) VNone no_options.
Proof.
  exact (proj1 (proj2 (proj2 (set_name_once (Field (named "is_in") (inl TStr) VNone no_options)
                                 "kind" "kind"))) "is_in" eq_refl).
Defined.

Section DescriptorFacts.
Variable sys_modules : modules.
Variable Message_get : value → string → outcome value.

(** [Message.get] returns what the message has under a name when it has
    something. *)
Hypothesis Message_get_stored :
  ∀ m k x, py_getitem m k = Ok x → Message_get m k = Ok x.

(** X4. Assigning a value to the attribute of a plain, map or repeated field
    stores it under the field's name, as it is. Reading the attribute of a
    plain or map field then gives that value, and reading the attribute of
    any field of another name that is not a converter field gives what it
    gave before. *)
Theorem set_then_get f n c stored v cache
    (Hn : name f = Some n) (Hf : is_converter f = false) :
  let m' := VMsg c (dict_set n v stored) in
  __set__ f (VMsg c stored) v = Some (Ok m') ∧
  (match f with RepeatField _ _ _ => False | _ => True end →
   __get__ sys_modules Message_get f cache m' = Some (Ok (AValue v), cache)) ∧
  ∀ g n' cache',
    name g = Some n' → n' ≠ n → is_converter g = false →
    __get__ sys_modules Message_get g cache' m'
    = __get__ sys_modules Message_get g cache' (VMsg c stored).
Proof.
  intros m'. split; [|split].
  - unfold __set__. rewrite Hn. by destruct f.
  - intros Hkind. unfold __get__. rewrite Hn. cbn.
    rewrite dict_get_set_eq. by destruct f.
  - intros g n' cache' Hn' Hne Hg. unfold __get__. rewrite Hn'. cbn.
    rewrite dict_get_set_ne by done. by destruct g.
Qed.

(** X5. Assigning a value to the attribute of a converter field stores what
    the converter formats it to, and stores nothing when the converter
    raises; reading the attribute then gives what the converter makes of
    the stored value, which is the value assigned when the converter gets
    back what it formats. *)
Theorem converter_set_then_get d conv dflt o n c stored v cache
    (Hn : _name d = Some n) :
  let f := ConverterField d conv dflt o in
  match format conv v with
  | Ok w =>
      let m' := VMsg c (dict_set n w stored) in
      __set__ f (VMsg c stored) v = Some (Ok m') ∧
      py_getitem m' n = Ok w ∧
      __get__ sys_modules Message_get f cache m' = Some (AValue <$> convert conv w, cache) ∧
      (convert conv w = Ok v →
       __get__ sys_modules Message_get f cache m' = Some (Ok (AValue v), cache))
  | Raise e => __set__ f (VMsg c stored) v = Some (Raise e)
  end.
Proof.
  intros f. unfold __set__, __get__, name. cbn. rewrite Hn. cbn.
  destruct (format conv v) as [w|e]; cbn; [|done].
  assert (py_getitem (VMsg c (dict_set n w stored)) n = Ok w) as Hw.
  { cbn. by rewrite dict_get_set_eq. }
  rewrite (Message_get_stored _ _ _ Hw). cbn.
  repeat split; [done|]. by intros ->.
Qed.

End DescriptorFacts.

Lemma set_then_get_witness :
  __get__ [] Mapping_get (Field (named "name") (inl TStr) VNone no_options) None
    (VMsg "HelloRequest" (dict_set "name" (VStr "Bob") [("name", VStr "Alice")]))
  = Some (Ok (AValue (VStr "Bob")), None).
Proof.
  refine (proj1 (proj2 (set_then_get [] Mapping_get
                          (Field (named "name") (inl TStr) VNone no_options) "name"
                          "HelloRequest" [("name", VStr "Alice")] (VStr "Bob") None
                          eq_refl eq_refl)) I).
Defined.

Lemma converter_set_then_get_witness :
  __get__ [] Mapping_get (ConverterField (named "title") StringValueConverter VNone no_options)
    None
    (VMsg "Book" (dict_set "title" (VMsg "venom.common.StringValue" [("value", VStr "Dune")]) []))
  = Some (Ok (AValue (VStr "Dune")), None).
Proof.
  refine (proj2 (proj2 (proj2 (converter_set_then_get [] Mapping_get _
                                 (named "title") StringValueConverter VNone no_options "title"
                                 "Book" [] (VStr "Dune") None eq_refl))) eq_refl).
  intros m k x Hx. unfold Mapping_get. by rewrite Hx.
Defined.

(** ** More on the codec *)

Lemma dict_get_set_is_Some {A} k a (y : A) d :
  is_Some (dict_get k (dict_set a y d)) ↔ k = a ∨ is_Some (dict_get k d).
Proof.
  destruct (decide (a = k)) as [->|Hne].
  - rewrite dict_get_set_eq. split; [by left | by eexists].
  - rewrite dict_get_set_ne by done. split; [by right|]. by intros [->|].
Qed.

Lemma encode_fields_keys attribute ef c stored fields acc msg :
  encode_fields attribute ef (VMsg c stored) fields acc = Ok msg →
  ∀ k, is_Some (dict_get k msg) ↔
       is_Some (dict_get k acc) ∨
       (k ∈ attributes attribute fields ∧ is_Some (dict_get k stored)).
Proof.
  revert acc. induction fields as [|[k0 f] fields IH]; intros acc.
  { intros [= <-] k. split; [by left|]. intros [|[Hk _]]; [done|]. by apply elem_of_nil in Hk. }
  cbn. unfold dict_has. destruct (dict_get (attribute f) stored) as [x|] eqn:Hx.
  - rewrite bool_decide_true by done. cbn. destruct (ef x f) as [y|]; cbn; [|done].
    intros Hmsg k. rewrite (IH _ Hmsg k), dict_get_set_is_Some, elem_of_cons.
    split.
    + intros [[->|]|[]]; [right; split; [by left | by rewrite Hx] | by left | right; by split; [right|]].
    + intros [|[[->|] ?]]; [left; by right | left; by left | right; by split].
  - rewrite bool_decide_false by (by intros [? ?]). cbn.
    intros Hmsg k. rewrite (IH _ Hmsg k), elem_of_cons.
    split.
    + intros [|[]]; [by left | right; by split; [right|]].
    + intros [|[[->|] Hs]]; [by left | rewrite Hx in Hs; by destruct Hs | right; by split].
Qed.

Lemma decode_fields_slots attribute optional df d fields c stored0 m :
  decode_fields attribute optional df (VDict d) fields (VMsg c stored0) = Ok m →
  ∃ stored, m = VMsg c stored ∧
    ∀ k, is_Some (dict_get k stored) ↔
         is_Some (dict_get k stored0) ∨
         (k ∈ attributes attribute fields ∧ is_Some (dict_get k d)).
Proof.
  revert stored0. induction fields as [|[k0 f] fields IH]; intros stored0.
  { intros [= <-]. exists stored0. split; [done|]. intros k. split; [by left|].
    intros [|[Hk _]]; [done|]. by apply elem_of_nil in Hk. }
  cbn. unfold dict_has. destruct (dict_get (attribute f) d) as [x|] eqn:Hx.
  - rewrite bool_decide_true by done. cbn. destruct (df x f) as [y|]; cbn; [|done].
    intros Hm. destruct (IH _ Hm) as (stored & -> & Hk). exists stored. split; [done|].
    intros k. rewrite (Hk k), dict_get_set_is_Some, elem_of_cons.
    split.
    + intros [[->|]|[]]; [right; split; [by left | by rewrite Hx] | by left | right; by split; [right|]].
    + intros [|[[->|] ?]]; [left; by right | left; by left | right; by split].
  - rewrite bool_decide_false by (by intros [? ?]). cbn.
    destruct (optional f); [|done].
    intros Hm. destruct (IH _ Hm) as (stored & -> & Hk). exists stored. split; [done|].
    intros k. rewrite (Hk k), elem_of_cons.
    split.
    + intros [|[]]; [by left | right; by split; [right|]].
    + intros [|[[->|] Hs]]; [by left | rewrite Hx in Hs; by destruct Hs | right; by split].
Qed.

Section Slots.
Variable sys_modules : modules.
Variable validate : value → pytype → option exn.
Variable attribute : field → string.
Variable optional : field → bool.

(** X6. What [encode] makes of a message is an object with a key exactly for
    each slot that a field of the class addresses and the message has:
    nothing is put in for a field without a stored value, nor for a stored
    value no field addresses. *)
Theorem encode_keys fuel c stored name fields e :
  encode sys_modules attribute fuel (VMsg c stored) (TMessage name fields) = Ok e →
  ∃ msg, e = VDict msg ∧
    ∀ k, is_Some (dict_get k msg) ↔
         k ∈ attributes attribute fields ∧ is_Some (dict_get k stored).
Proof.
  destruct fuel as [|n]; [done|]. cbn.
  destruct (encode_fields _ _ _ _ _) as [msg|] eqn:Hmsg; cbn; [|done].
  intros [= <-]. exists msg. split; [done|]. intros k.
  rewrite (encode_fields_keys _ _ _ _ _ _ _ Hmsg k). cbn.
  split; [intros [[? [=]]|]; done | by right].
Qed.

(** X7. What [decode] makes of an object is an instance of the class with a
    slot exactly for each field whose slot the object has: a field that is
    absent from the object is left unset, and a key that no field addresses
    leaves no trace. *)
Theorem decode_slots fuel d name fields m :
  decode sys_modules validate attribute optional fuel (VDict d) (TMessage name fields) = Ok m →
  ∃ stored, m = VMsg name stored ∧
    ∀ k, is_Some (dict_get k stored) ↔
         k ∈ attributes attribute fields ∧ is_Some (dict_get k d).
Proof.
  destruct fuel as [|n]; [done|]. cbn [decode].
  destruct (validate _ _); [done|]. unfold _decode. cbn.
  intros Hm. destruct (decode_fields_slots _ _ _ _ _ _ _ _ Hm) as (stored & -> & Hk).
  exists stored. split; [done|]. intros k. rewrite (Hk k). cbn.
  split; [intros [[? [=]]|]; done | by right].
Qed.

End Slots.

Lemma encode_keys_witness :
  ∃ msg,
    encode [] attribute_of_name 2
      (VMsg "HelloRequest" [("name", VStr "Alice"); ("zz", VInt 1)]) HelloRequest = Ok (VDict msg) ∧
    (is_Some (dict_get "zz" msg) ↔
     "zz" ∈ attributes attribute_of_name HelloRequest_fields ∧
     is_Some (dict_get "zz" [("name", VStr "Alice"); ("zz", VInt 1)])).
Proof.
  destruct (encode_keys [] attribute_of_name 2 "HelloRequest"
              [("name", VStr "Alice"); ("zz", VInt 1)] "HelloRequest" HelloRequest_fields
              (VDict [("name", VStr "Alice")]) eq_refl) as (msg & Hmsg & Hk).
  exists msg. split; [by rewrite <-Hmsg|]. apply Hk.
Defined.

Lemma decode_slots_witness :
  ∃ stored,
    decode [] accept_all attribute_of_name optional_of_options 2
      (VDict [("zz", VInt 1); ("name", VStr "Alice")]) HelloRequest
      = Ok (VMsg "HelloRequest" stored) ∧
    dict_get "tags" stored = None.
Proof.
  destruct (decode_slots [] accept_all attribute_of_name optional_of_options 2
              [("zz", VInt 1); ("name", VStr "Alice")] "HelloRequest" HelloRequest_fields
              (VMsg "HelloRequest" [("name", VStr "Alice")]) eq_refl) as (stored & Hm & Hk).
  exists stored. split; [by rewrite <-Hm|].
  apply eq_None_not_Some. intros Hs. apply Hk in Hs as [_ [x Hx]]. discriminate Hx.
Defined.

(** ** Mapping over a list, in the codec's monad *)

Lemma mapM_Ok {A B} (g : A → outcome B) l ys :
  mapM g l = Ok ys ↔ Forall2 (λ x y, g x = Ok y) l ys.
Proof.
  revert ys. induction l as [|x l IH]; intros ys.
  - split; [intros [= <-]; constructor | by intros ->%Forall2_nil_inv_l].
  - change (mapM g (x :: l)) with (y ← g x; k ← mapM g l; Ok (y :: k)).
    split.
    + destruct (g x) as [y|e] eqn:Hx; [|done].
      destruct (mapM g l) as [ys'|e] eqn:Hl; [|done].
      intros [= <-]. constructor; [done|]. by apply IH.
    + intros (y' & ys'' & Hy & Hys & ->)%Forall2_cons_inv_l.
      apply IH in Hys. by rewrite Hy, Hys.
Qed.

Lemma mapM_Raise {A B} (g : A → outcome B) pre x post e :
  Forall (λ x', ∃ y, g x' = Ok y) pre → g x = Raise e →
  mapM g (pre ++ x :: post) = Raise e.
Proof.
  intros Hpre Hx. induction Hpre as [|x' pre [y Hy] _ IH]; cbn.
  - by rewrite Hx.
  - rewrite Hy. cbn. by rewrite IH.
Qed.

(** ** Repeated and map fields in the codec *)

Lemma mapM_entries (g : value → outcome value) (d es : list (string * value)) :
  mapM (λ kv : string * value, y ← g kv.2; Ok (kv.1, y)) d = Ok es ↔
  Forall2 (λ kv kv', kv'.1 = kv.1 ∧ g kv.2 = Ok kv'.2) d es.
Proof.
  rewrite mapM_Ok.
  assert (∀ kv kv' : string * value,
            (y ← g kv.2; Ok (kv.1, y)) = Ok kv' ↔ kv'.1 = kv.1 ∧ g kv.2 = Ok kv'.2) as Hkv.
  { intros [k x] [k' y]. cbn. destruct (g x) as [z|]; cbn; [|split; [done | by intros [_ ?]]].
    split; [by intros [= -> ->] | by intros [-> [= ->]]]. }
  split; intros H; (eapply Forall2_impl; [exact H|]); intros kv kv'; apply Hkv.
Qed.

Lemma Forall2_entries_keys (P : value → value → Prop) (d es : list (string * value)) :
  Forall2 (λ kv kv', kv'.1 = kv.1 ∧ P kv.2 kv'.2) d es → es.*1 = d.*1.
Proof. induction 1 as [|[] [] ? ? [? _]]; cbn in *; [done|]. by f_equal. Qed.

Section Items.
Variable sys_modules : modules.
Variables enc dec : value → pytype → outcome value.

(** X8. A repeated field is encoded and decoded item by item, in order, with
    the codec of its item field: a list goes to the list of what its items
    go to, and any other value to what the list of the items it iterates
    over goes to. When an item fails, the call raises what the first such
    item raises. *)
Theorem repeat_codec_itemwise d items o xs :
  let f := RepeatField d items o in
  (∀ r, encode_field sys_modules enc (VList xs) f = Ok r ↔
        ∃ ys, r = VList ys ∧
              Forall2 (λ x y, encode_field sys_modules enc x items = Ok y) xs ys) ∧
  (∀ r, decode_field sys_modules dec (VList xs) f = Ok r ↔
        ∃ ys, r = VList ys ∧
              Forall2 (λ x y, decode_field sys_modules dec x items = Ok y) xs ys) ∧
  (∀ v, v ≠ VNone → py_iter v = Ok xs →
        encode_field sys_modules enc v f = encode_field sys_modules enc (VList xs) f ∧
        decode_field sys_modules dec v f = decode_field sys_modules dec (VList xs) f) ∧
  (∀ pre x post e, xs = pre ++ x :: post →
     (Forall (λ x', ∃ y, encode_field sys_modules enc x' items = Ok y) pre →
      encode_field sys_modules enc x items = Raise e →
      encode_field sys_modules enc (VList xs) f = Raise e) ∧
     (Forall (λ x', ∃ y, decode_field sys_modules dec x' items = Ok y) pre →
      decode_field sys_modules dec x items = Raise e →
      decode_field sys_modules dec (VList xs) f = Raise e)).
Proof.
  intros f. split; [|split; [|split]].
  - intros r. cbn. destruct (mapM _ xs) as [ys|e] eqn:Hys; cbn.
    + apply mapM_Ok in Hys. split; [intros [= <-]; by exists ys|].
      intros (ys' & -> & Hys'). apply mapM_Ok in Hys, Hys'. congruence.
    + split; [done|]. intros (ys & _ & Hys'). apply mapM_Ok in Hys'. congruence.
  - intros r. cbn. destruct (mapM _ xs) as [ys|e] eqn:Hys; cbn.
    + apply mapM_Ok in Hys. split; [intros [= <-]; by exists ys|].
      intros (ys' & -> & Hys'). apply mapM_Ok in Hys, Hys'. congruence.
    + split; [done|]. intros (ys & _ & Hys'). apply mapM_Ok in Hys'. congruence.
  - intros v Hv Hxs. destruct v; try done; cbn in Hxs |- *; by simplify_eq.
  - intros pre x post e ->. split; intros Hpre Hx; cbn;
      by rewrite (mapM_Raise _ pre x post e Hpre Hx).
Qed.

(** X9. A map field is encoded and decoded entry by entry with the codec of
    its value field: the keys stay as they are and in their order.
    [decode_field] accepts nothing but a [dict] for a map field, while
    [encode_field] takes whatever has [items()]. *)
Theorem map_codec_entrywise d values o entries (Hkeys : NoDup entries.*1) :
  let f := MapField d values o in
  (∀ r, encode_field sys_modules enc (VDict entries) f = Ok r ↔
        ∃ es, r = VDict es ∧
              Forall2 (λ kv kv', kv'.1 = kv.1 ∧
                                 encode_field sys_modules enc kv.2 values = Ok kv'.2)
                entries es) ∧
  (∀ r, decode_field sys_modules dec (VDict entries) f = Ok r ↔
        ∃ es, r = VDict es ∧
              Forall2 (λ kv kv', kv'.1 = kv.1 ∧
                                 decode_field sys_modules dec kv.2 values = Ok kv'.2)
                entries es) ∧
  (∀ c, encode_field sys_modules enc (VMsg c entries) f
        = encode_field sys_modules enc (VDict entries) f ∧
        decode_field sys_modules dec (VMsg c entries) f = Raise AssertionError) ∧
  (∀ v, v ≠ VNone → (∀ es, v ≠ VDict es) →
        decode_field sys_modules dec v f = Raise AssertionError).
Proof.
  intros f.
  assert (∀ (g : value → outcome value) r,
            dict_comprehension g entries = Ok r ↔
            ∃ es, r = VDict es ∧
                  Forall2 (λ kv kv', kv'.1 = kv.1 ∧ g kv.2 = Ok kv'.2) entries es) as Hcomp.
  { intros g r. unfold dict_comprehension.
    destruct (mapM _ entries) as [es|e] eqn:Hes; cbn.
    - apply mapM_entries in Hes.
      assert (dict_of_list es = es) as ->.
      { apply dict_of_list_NoDup. by rewrite (Forall2_entries_keys (λ x y, g x = Ok y) _ _ Hes). }
      split; [intros [= <-]; by exists es|].
      intros (es' & -> & Hes'). apply mapM_entries in Hes, Hes'. congruence.
    - split; [done|]. intros (es & _ & Hes'). apply mapM_entries in Hes'. congruence. }
  split; [|split; [|split]].
  - intros r. apply Hcomp.
  - intros r. apply Hcomp.
  - done.
  - intros v Hv Hd. destruct v; try done. by destruct (Hd d0).
Qed.

End Items.

Lemma map_codec_entrywise_witness :
  encode_field [] (λ _ _, Raise TypeError) (VDict [("a", VInt 1); ("b", VNone)])
    (MapField unnamed (Field unnamed (inl TInt) VNone no_options) no_options)
  = Ok (VDict [("a", VInt 1); ("b", VNone)]).
Proof.
  refine (proj2 (proj1 (map_codec_entrywise [] (λ _ _, Raise TypeError) (λ _ _, Raise TypeError)
                   unnamed (Field unnamed (inl TInt) VNone no_options) no_options
                   [("a", VInt 1); ("b", VNone)] _) _) _).
  - by apply (bool_decide_unpack _).
  - eexists. split; [done|]. repeat constructor.
Defined.

Lemma repeat_codec_itemwise_witness :
  decode_field [] (λ _ _, Raise TypeError) (VList [VInt 1; VStr "x"; VInt 2])
    (RepeatField (named "xs") (Field unnamed (inl TFloat) VNone no_options) no_options)
  = Ok (VList [VFloat (S754_finite false 4503599627370496 (-52)); VStr "x";
               VFloat (S754_finite false 4503599627370496 (-51))]).
Proof.
  refine (proj2 (proj1 (proj2 (repeat_codec_itemwise [] (λ _ _, Raise TypeError)
                                 (λ _ _, Raise TypeError) (named "xs")
                                 (Field unnamed (inl TFloat) VNone no_options) no_options
                                 [VInt 1; VStr "x"; VInt 2])) _) _).
  eexists. split; [done|]. repeat constructor.
Defined.

(** ** Failures of the codec *)

Section Failures.
Variable sys_modules : modules.
Variable validate : value → pytype → option exn.
Variable attribute : field → string.
Variable optional : field → bool.

Lemma encode_fields_app ef message pre rest acc :
  Forall (λ kf : string * field,
            py_contains (attribute kf.2) message = Ok false ∨
            py_contains (attribute kf.2) message = Ok true ∧
            ∃ x y, py_getitem message (attribute kf.2) = Ok x ∧ ef x kf.2 = Ok y) pre →
  ∃ acc', encode_fields attribute ef message (pre ++ rest) acc
          = encode_fields attribute ef message rest acc'.
Proof.
  intros Hpre. revert acc.
  induction Hpre as [|[k f] pre [Hc | (Hc & x & y & Hx & Hy)] _ IH]; intros acc;
    cbn in *.
  - by exists acc.
  - rewrite Hc. cbn. apply IH.
  - rewrite Hc, Hx. cbn. rewrite Hy. cbn. apply IH.
Qed.

Lemma decode_fields_app df d pre rest c stored :
  Forall (λ kf : string * field,
            match dict_get (attribute kf.2) d with
            | Some x => ∃ y, df x kf.2 = Ok y
            | None => optional kf.2 = true
            end) pre →
  ∃ stored', decode_fields attribute optional df (VDict d) (pre ++ rest) (VMsg c stored)
             = decode_fields attribute optional df (VDict d) rest (VMsg c stored').
Proof.
  intros Hpre. revert stored.
  induction Hpre as [|[k f] pre Hf _ IH]; intros stored; cbn in *.
  - by exists stored.
  - unfold dict_has. destruct (dict_get (attribute f) d) as [x|] eqn:Hx.
    + rewrite bool_decide_true by done. destruct Hf as [y Hy]. cbn. rewrite Hy. cbn. apply IH.
    + rewrite bool_decide_false by (by intros [? ?]). cbn. rewrite Hf. apply IH.
Qed.

(** X10. [encode] and [decode] go through the fields of the class in the
    order of their declaration and stop at the first that fails: [encode]
    raises what the first field raises whose stored value does not encode;
    [decode] of an object the validator accepts raises [ValueError] at the
    first field that is absent and not optional, and what decoding the
    first field's value raises when that fails, whichever comes first. *)
Theorem codec_first_failure fuel c stored d name pre k f post :
  let cls := TMessage name (pre ++ (k, f) :: post) in
  let ef := encode_field sys_modules (encode sys_modules attribute fuel) in
  let df := decode_field sys_modules (decode sys_modules validate attribute optional fuel) in
  (Forall (λ kf : string * field,
             match dict_get (attribute kf.2) stored with
             | Some x => ∃ y, ef x kf.2 = Ok y
             | None => True
             end) pre →
   ∀ x e, dict_get (attribute f) stored = Some x → ef x f = Raise e →
     encode sys_modules attribute (S fuel) (VMsg c stored) cls = Raise e) ∧
  (validate (VDict d) cls = None →
   Forall (λ kf : string * field,
             match dict_get (attribute kf.2) d with
             | Some x => ∃ y, df x kf.2 = Ok y
             | None => optional kf.2 = true
             end) pre →
   (dict_get (attribute f) d = None → optional f = false →
      decode sys_modules validate attribute optional (S fuel) (VDict d) cls = Raise ValueError) ∧
   (∀ x e, dict_get (attribute f) d = Some x → df x f = Raise e →
      decode sys_modules validate attribute optional (S fuel) (VDict d) cls = Raise e)).
Proof.
  intros cls ef df. split.
  - intros Hpre x e Hx He.
    change (encode sys_modules attribute (S fuel) (VMsg c stored) cls)
      with (msg ← encode_fields attribute ef (VMsg c stored) (pre ++ (k, f) :: post) [];
            Ok (VDict msg)).
    destruct (encode_fields_app ef (VMsg c stored) pre ((k, f) :: post) []) as [acc' ->].
    { eapply Forall_impl; [exact Hpre|]. intros [k' f']. cbn. unfold dict_has.
      destruct (dict_get (attribute f') stored) as [x'|].
      - intros [y Hy]. right. rewrite bool_decide_true by done. split; [done|]. by exists x', y.
      - intros _. left. by rewrite bool_decide_false by (by intros [? ?]). }
    cbn. unfold dict_has. rewrite Hx, bool_decide_true by done. cbn.
    by rewrite He.
  - intros Hv Hpre. cbn [decode]. rewrite Hv.
    change (_decode sys_modules attribute optional
              (decode sys_modules validate attribute optional fuel) (VDict d) cls)
      with (decode_fields attribute optional df (VDict d) (pre ++ (k, f) :: post)
              (VMsg name [])).
    destruct (decode_fields_app df d pre ((k, f) :: post) name [] Hpre) as [stored' ->].
    cbn. unfold dict_has. split.
    + intros Hx Ho. rewrite Hx, bool_decide_false by (by intros [? ?]). cbn. by rewrite Ho.
    + intros x e Hx He. rewrite Hx, bool_decide_true by done. cbn. by rewrite He.
Qed.

(** X11. A converter field whose converter has a wire type that is not a
    message class can be neither encoded nor decoded: once the converter
    has formatted the value, [encode] finds no fields on the wire type and
    raises [AttributeError]; so does [decode] once the validator has
    accepted the instance and the wire type has been instantiated. *)
Theorem converter_wire_not_message fuel d conv dflt o v
    (Hwire : is_message (wire conv) = false) (Hv : v ≠ VNone) :
  let f := ConverterField d conv dflt o in
  (∀ w, format conv v = Ok w →
     encode_field sys_modules (encode sys_modules attribute (S fuel)) v f = Raise AttributeError) ∧
  (validate v (wire conv) = None → ∀ m, type_call (wire conv) = Ok m →
     decode_field sys_modules (decode sys_modules validate attribute optional (S fuel)) v f
     = Raise AttributeError).
Proof.
  intros f. split.
  - intros w Hw. destruct v; try done; cbn; rewrite Hw; cbn;
      by destruct (wire conv).
  - intros Hval m Hm. destruct v; try done; cbn [decode_field f decode];
      rewrite Hval; unfold _decode; rewrite Hm; cbn; by destruct (wire conv).
Qed.

End Failures.

Lemma codec_first_failure_witness :
  decode [] accept_all attribute_of_name optional_of_options 2
    (VDict [("tags", VInt 3)]) HelloRequest = Raise ValueError.
Proof.
  refine (proj1 (proj2 (codec_first_failure [] accept_all attribute_of_name optional_of_options
                          1 "HelloRequest" [] [("tags", VInt 3)] "HelloRequest" []
                          "name" (Field (named "name") (inl TStr) VNone no_options)
                          [("tags", RepeatField (named "tags")
                                      (Field unnamed (inl TStr) VNone no_options)
                                      {| schema := None; extra := [("optional", VBool true)] |})])
                   eq_refl (Forall_nil_2 _)) eq_refl eq_refl).
Defined.

Lemma converter_wire_not_message_witness :
  let conv : Converter :=
    {| wire := TStr; python := HType datetime; format := λ v, Ok v; convert := λ w, Ok w |} in
  encode_field [] (encode [] attribute_of_name 1) (VInt 0)
    (ConverterField (named "at") conv VNone no_options)
  = Raise AttributeError.
Proof.
  intros conv.
  refine (proj1 (converter_wire_not_message [] accept_all attribute_of_name optional_of_options
                   0 (named "at") conv VNone no_options (VInt 0) eq_refl _) (VInt 0) eq_refl).
  done.
Defined.

(** ** Decoding, then reading an attribute *)

Lemma decode_fields_inv attribute optional df d fields message m :
  decode_fields attribute optional df (VDict d) fields message = Ok m →
  Forall (λ kf : string * field,
            match dict_get (attribute kf.2) d with
            | Some e => ∃ v', df e kf.2 = Ok v'
            | None => optional kf.2 = true
            end) fields.
Proof.
  revert message. induction fields as [|[k f] fields IH]; intros message; [by constructor|].
  cbn. unfold dict_has. destruct (dict_get (attribute f) d) as [x|] eqn:Hx.
  - rewrite bool_decide_true by done. cbn. destruct (df x f) as [y|] eqn:Hy; cbn; [|done].
    destruct (py_setitem message (attribute f) y) as [message'|]; cbn; [|done].
    intros Hm. constructor; [|by eapply IH]. cbn. rewrite Hx. by exists y.
  - rewrite bool_decide_false by (by intros [? ?]). cbn.
    destruct (optional f) eqn:Ho; [|done].
    intros Hm. constructor; [|by eapply IH]. cbn. by rewrite Hx.
Qed.

Section DecodeRead.
Variable sys_modules : modules.
Variable validate : value → pytype → option exn.
Variable attribute : field → string.
Variable optional : field → bool.
Variable Message_get : value → string → outcome value.

(** X12. Reading, on a message that [decode] has made of an object, the
    attribute of a plain or map field of the class whose slot is its name:
    when the object has the slot, the attribute is what [decode_field]
    makes of the value there; when it has not, the field is optional and
    the attribute is the field's default, with nothing stored. *)
Theorem decode_then_read fuel d c fields m k f n cache
    (Hdec : decode sys_modules validate attribute optional (S fuel) (VDict d)
              (TMessage c fields) = Ok m)
    (Hnd : NoDup (attributes attribute fields))
    (Hkf : (k, f) ∈ fields)
    (Hn : name f = Some n)
    (Hattr : attribute f = n)
    (Hkind : match f with Field _ _ _ _ | MapField _ _ _ => True | _ => False end) :
  match dict_get n d with
  | Some x =>
      ∃ y, decode_field sys_modules (decode sys_modules validate attribute optional fuel) x f
           = Ok y ∧
           __get__ sys_modules Message_get f cache m = Some (Ok (AValue y), cache)
  | None =>
      optional f = true ∧
      py_contains n m = Ok false ∧
      __get__ sys_modules Message_get f cache m
      = Some (let '(r, cache') := Field_default sys_modules f cache in (AValue <$> r, cache'))
  end.
Proof.
  cbn [decode] in Hdec. destruct (validate _ _); [done|].
  unfold _decode in Hdec. cbn in Hdec. unfold Message_new in Hdec.
  pose proof (decode_fields_inv _ _ _ _ _ _ _ Hdec) as Hall.
  destruct (decode_fields_ok attribute optional _ d c fields [] Hall) as (stored & Hm & _ & Hin).
  rewrite Hdec in Hm. injection Hm as ->.
  specialize (Hin Hnd (k, f) Hkf). cbn in Hin. rewrite Hattr in Hin.
  rewrite Forall_forall in Hall. specialize (Hall (k, f) Hkf). cbn in Hall. rewrite Hattr in Hall.
  unfold __get__. rewrite Hn. cbn.
  destruct (dict_get n d) as [x|].
  - destruct Hin as (y & Hy & Hget). exists y. split; [done|]. rewrite Hget. by destruct f.
  - split; [done|]. cbn in Hin. unfold dict_has. rewrite Hin.
    split; [by rewrite bool_decide_false by (by intros [? ?])|]. by destruct f.
Qed.

End DecodeRead.

Lemma decode_then_read_witness :
  ∃ y, decode_field [] (decode [] accept_all attribute_of_name optional_of_options 1)
         (VStr "Alice") (Field (named "name") (inl TStr) VNone no_options) = Ok y ∧
       __get__ [] Mapping_get (Field (named "name") (inl TStr) VNone no_options) None
         (VMsg "HelloRequest" [("name", VStr "Alice")])
       = Some (Ok (AValue y), None).
Proof.
  refine (decode_then_read [] accept_all attribute_of_name optional_of_options Mapping_get
            1 [("name", VStr "Alice")] "HelloRequest" HelloRequest_fields
            (VMsg "HelloRequest" [("name", VStr "Alice")])
            "name" (Field (named "name") (inl TStr) VNone no_options) "name" None
            eq_refl _ _ eq_refl eq_refl I).
  - by apply (bool_decide_unpack _).
  - apply elem_of_cons. by left.
Defined.

(** ** More on the view of a repeated field *)

Lemma dict_get_elem_of {A} k (d : list (string * A)) x :
  dict_get k d = Some x → (k, x) ∈ d.
Proof.
  induction d as [|[k' v'] d IH]; [done|]. cbn.
  destruct (decide (k' = k)) as [->|]; [intros [= ->]; by left | right; by apply IH].
Qed.

Lemma Forall_dict_set {A} (P : string * A → Prop) k v d :
  Forall P d → P (k, v) → Forall P (dict_set k v d).
Proof.
  intros Hd Hkv. induction Hd as [|[k' v'] d HP Hd IH]; cbn.
  - by constructor.
  - destruct (decide (k' = k)); by constructor.
Qed.

Lemma sequence_fresh name mem :
  dict_get name (values mem) = None →
  ∃ l, _RepeatValueProxy._sequence name mem = (CList l, set_lists (<[l:=[]]> (lists mem)) mem) ∧
       lists mem !! l = None.
Proof.
  intros Hnone. unfold _RepeatValueProxy._sequence. rewrite Hnone. eexists. split; [done|].
  apply not_elem_of_dom, is_fresh.
Qed.

Lemma deref_allocate mem l l0 :
  lists mem !! l = None → deref (set_lists (<[l:=[]]> (lists mem)) mem) l0 = deref mem l0.
Proof.
  intros Hl. unfold deref. cbn. destruct (decide (l = l0)) as [<-|Hne].
  - rewrite lookup_total_insert_eq. unfold lookup_total, map_lookup_total. by rewrite Hl.
  - by rewrite lookup_total_insert_ne.
Qed.

Lemma sequence_reads name mem :
  let mem' := (_RepeatValueProxy._sequence name mem).2 in
  values mem' = values mem ∧ cls_name mem' = cls_name mem ∧
  ∀ l0, deref mem' l0 = deref mem l0.
Proof.
  unfold _RepeatValueProxy._sequence. destruct (dict_get name (values mem)) eqn:Hget; [done|].
  cbn. repeat split. intros l0. apply deref_allocate, not_elem_of_dom, is_fresh.
Qed.

Lemma snapshot_ext mem mem' :
  values mem' = values mem → cls_name mem' = cls_name mem →
  (∀ l0, deref mem' l0 = deref mem l0) →
  snapshot mem' = snapshot mem ∧ ∀ k, Message_getitem k mem' = Message_getitem k mem.
Proof.
  intros Hv Hc Hd.
  assert (∀ c, cell_value mem' c = cell_value mem c) as Hcell.
  { intros [l|v]; cbn; [by rewrite Hd | done]. }
  split.
  - unfold snapshot. rewrite Hv, Hc. f_equal. apply list_fmap_ext.
    intros _ [k c] _. cbn. by rewrite Hcell.
  - intros k. unfold Message_getitem. rewrite Hv. destruct (dict_get k (values mem)); [|done].
    by rewrite Hcell.
Qed.

(** X13. Reading through the view of a repeated field changes nothing of
    the message: after [iter], [len] or indexing, the message has the slots
    it had, with the values they had. In particular a field that is unset
    stays unset, and its view reads as an empty sequence. *)
Theorem view_reads_leave_message name index mem :
  Forall (λ mem', values mem' = values mem ∧ snapshot mem' = snapshot mem ∧
                  ∀ k, Message_getitem k mem' = Message_getitem k mem)
    [(_RepeatValueProxy.__iter__ name mem).2;
     (_RepeatValueProxy.__len__ name mem).2;
     (_RepeatValueProxy.__getitem__ name index mem).2] ∧
  (dict_get name (values mem) = None →
   (_RepeatValueProxy.__iter__ name mem).1 = Ok [] ∧
   (_RepeatValueProxy.__len__ name mem).1 = Ok 0%nat ∧
   (_RepeatValueProxy.__getitem__ name index mem).1 = Raise IndexError).
Proof.
  unfold _RepeatValueProxy.__iter__, _RepeatValueProxy.__len__, _RepeatValueProxy.__getitem__.
  split.
  - destruct (sequence_reads name mem) as (Hv & Hc & Hd).
    destruct (snapshot_ext _ _ Hv Hc Hd) as [Hs Hg].
    destruct (_RepeatValueProxy._sequence name mem) as [c mem']. cbn in *.
    by repeat constructor.
  - intros Hnone. destruct (sequence_fresh name mem Hnone) as (l & -> & Hl). cbn.
    unfold deref. cbn. rewrite lookup_total_insert_eq. cbn.
    repeat split. unfold list_getitem, normalize_index. cbn.
    destruct (decide (index < 0)); by rewrite decide_False by lia.
Qed.

Lemma view_reads_leave_message_witness :
  let mem := {| lists := ∅; cls_name := "HelloRequest";
                values := [("name", CScalar (VStr "x"))] |} in
  (_RepeatValueProxy.__iter__ "tags" mem).1 = Ok [] ∧
  (_RepeatValueProxy.__len__ "tags" mem).1 = Ok 0%nat ∧
  (_RepeatValueProxy.__getitem__ "tags" 0 mem).1 = Raise IndexError.
Proof.
  intros mem. exact (proj2 (view_reads_leave_message "tags" 0 mem) eq_refl).
Defined.

Lemma write_back_frame name mem
    (Hwf : well_formed mem)
    (Hslot : dict_get name (values mem) = None ∨
             ∃ l, dict_get name (values mem) = Some (CList l)) :
  ∃ l mem1,
    _RepeatValueProxy.write_back name mem = (CList l, mem1) ∧
    values mem1 = dict_set name (CList l) (values mem) ∧
    is_Some (lists mem1 !! l) ∧
    well_formed mem1 ∧
    (∀ l0, deref mem1 l0 = deref mem l0) ∧
    (∀ k, dict_get k (values mem) = Some (CList l) → shares k name mem) ∧
    (∀ l0, dict_get name (values mem) = Some (CList l0) → l0 = l).
Proof.
  unfold _RepeatValueProxy.write_back. destruct Hslot as [Hnone | [l Hl]].
  - destruct (sequence_fresh name mem Hnone) as (l & -> & Hfresh).
    exists l, (set_values (dict_set name (CList l) (values mem))
                 (set_lists (<[l:=[]]> (lists mem)) mem)).
    split; [done|]. split; [done|]. cbn. split; [by rewrite lookup_insert_eq|].
    split; [|split; [|split]]; [| | |intros l0; by rewrite Hnone].
    + unfold well_formed. cbn. apply Forall_dict_set; [|cbn; by rewrite lookup_insert_eq].
      eapply Forall_impl; [exact Hwf|]. intros [k [l0|v]]; cbn; [|done].
      intros Hs. rewrite lookup_insert_is_Some. destruct (decide (l = l0)); [by left | by right].
    + intros l0. by apply deref_allocate.
    + intros k Hk. apply dict_get_elem_of in Hk.
      unfold well_formed in Hwf. rewrite Forall_forall in Hwf. apply Hwf in Hk. cbn in Hk.
      rewrite Hfresh in Hk. by destruct Hk.
  - unfold _RepeatValueProxy._sequence. rewrite Hl.
    exists l, (set_values (dict_set name (CList l) (values mem)) mem).
    split; [done|]. split; [done|]. cbn.
    assert (is_Some (lists mem !! l)) as Hsome.
    { apply dict_get_elem_of in Hl. unfold well_formed in Hwf. rewrite Forall_forall in Hwf.
      by apply Hwf in Hl. }
    split; [done|]. split; [|split; [done|split]].
    + unfold well_formed. cbn. by apply Forall_dict_set.
    + intros k Hk. by exists l.
    + by intros l0 [= ->].
Qed.

Lemma update_frame name mem l mem1 new
    (Hv : values mem1 = dict_set name (CList l) (values mem))
    (Hsome : is_Some (lists mem1 !! l))
    (Hwf : well_formed mem1)
    (Hd : ∀ l0, deref mem1 l0 = deref mem l0)
    (Hsh : ∀ k, dict_get k (values mem) = Some (CList l) → shares k name mem)
    (Hown : ∀ l0, dict_get name (values mem) = Some (CList l0) → l0 = l) :
  ∀ mem', mem' = mem1 ∨ mem' = set_lists (<[l:=new]> (lists mem1)) mem1 →
    well_formed mem' ∧
    (∀ k, k ≠ name → ¬ shares k name mem →
          Message_getitem k mem' = Message_getitem k mem) ∧
    (∀ k, shares k name mem → Message_getitem k mem' = Message_getitem name mem').
Proof.
  intros mem' Hmem'.
  assert (values mem' = values mem1) as Hv' by (by destruct Hmem' as [-> | ->]).
  assert (∀ l0, l0 ≠ l → deref mem' l0 = deref mem l0) as Hd'.
  { intros l0 Hne. destruct Hmem' as [-> | ->]; [done|]. rewrite <-Hd. unfold deref. cbn.
    by rewrite lookup_total_insert_ne. }
  split; [|split].
  - destruct Hmem' as [-> | ->]; [done|]. unfold well_formed. cbn.
    eapply Forall_impl; [exact Hwf|]. intros [k [l0|v]]; cbn; [|done].
    intros Hs. rewrite lookup_insert_is_Some. destruct (decide (l = l0)); [by left | by right].
  - intros k Hne Hns. unfold Message_getitem. rewrite Hv', Hv, dict_get_set_ne by done.
    destruct (dict_get k (values mem)) as [[l0|v]|] eqn:Hk; [|done..]. cbn.
    rewrite Hd'; [done|]. intros ->. by apply Hns, Hsh.
  - intros k (l0 & Hk & Hn). apply Hown in Hn as ->.
    unfold Message_getitem. rewrite Hv', Hv, dict_get_set_eq.
    destruct (decide (k = name)) as [->|Hne]; [by rewrite dict_get_set_eq|].
    by rewrite dict_get_set_ne, Hk by done.
Qed.

(** X14. [insert], [del] and assignment at an index through the view of a
    repeated field, on a message all of whose references lead to lists:
    every other field reads as before, unless its slot refers to the very
    list the field's slot refers to, in which case it reads as the field
    itself now reads; and every reference still leads to a list. *)
Theorem view_writes_frame name index x mem op
    (Hwf : well_formed mem)
    (Hslot : dict_get name (values mem) = None ∨
             ∃ l, dict_get name (values mem) = Some (CList l))
    (Hop : op ∈ [_RepeatValueProxy.insert name index x;
                 _RepeatValueProxy.__delitem__ name index;
                 _RepeatValueProxy.__setitem__ name index x]) :
  let mem' := (op mem).2 in
  well_formed mem' ∧
  (∀ k, k ≠ name → ¬ shares k name mem →
        Message_getitem k mem' = Message_getitem k mem) ∧
  (∀ k, shares k name mem → Message_getitem k mem' = Message_getitem name mem').
Proof.
  destruct (write_back_frame name mem Hwf Hslot)
    as (l & mem1 & Hwb & Hv & Hsome & Hwf1 & Hd & Hsh & Hown).
  pose proof (λ new, update_frame name mem l mem1 new Hv Hsome Hwf1 Hd Hsh Hown) as Hframe.
  repeat (apply elem_of_cons in Hop as [-> | Hop]); [| | |by apply elem_of_nil in Hop]; cbn.
  - unfold _RepeatValueProxy.insert. rewrite Hwb. cbn. eapply Hframe. by right.
  - unfold _RepeatValueProxy.__delitem__. rewrite Hwb.
    destruct (list_delitem index (deref mem1 l)) as [new|e]; cbn;
      [eapply Hframe; by right | apply (Hframe []); by left].
  - unfold _RepeatValueProxy.__setitem__. rewrite Hwb.
    destruct (list_setitem index x (deref mem1 l)) as [new|e]; cbn;
      [eapply Hframe; by right | apply (Hframe []); by left].
Qed.

Lemma view_writes_frame_witness :
  let mem := {| lists := {[ 0%nat := [VStr "a"] ]};
                cls_name := "HelloRequest";
                values := [("tags", CList 0); ("labels", CList 0); ("name", CScalar (VStr "x"))] |} in
  let mem' := (_RepeatValueProxy.insert "tags" 1 (VStr "b") mem).2 in
  Message_getitem "labels" mem' = Message_getitem "tags" mem'.
Proof.
  intros mem mem'.
  refine (proj2 (proj2 (view_writes_frame "tags" 1 (VStr "b") mem
                          (_RepeatValueProxy.insert "tags" 1 (VStr "b")) _ _ _))
            "labels" _).
  - unfold well_formed. cbn. repeat constructor; by eexists.
  - right. by exists 0%nat.
  - apply elem_of_cons. by left.
  - by exists 0%nat.
Defined.

(** ** Inferred fields *)

Lemma hint_induction (P : hint → Prop) :
  (∀ t, P (HType t)) → P HAny → P (HList None) → (∀ a, P a → P (HList (Some a))) →
  ∀ h, P h.
Proof.
  intros Ht Ha Hn Hs. fix IH 1. intros [t| |[a|]]; [apply Ht | apply Ha | apply Hs, IH | apply Hn].
Qed.

(** X15. A field that [create_field_from_type_hint] returns has the name
    that was given and no wire name or options of its own; it holds its
    type as a class, never by name, and neither it nor any of its item
    fields is a map field or, below the top, has a name. It has a default
    only if the hint is one of [bool], [int], [float], [str] and [bytes],
    and then the one that was given. Without converters, it is wrapped in
    as many repeated fields as the hint is in [List]s. *)
Theorem inferred_field_shape h converters default n f
    (Hf : create_field_from_type_hint h converters default n = Ok f) :
  name f = n ∧
  _json_name (descriptor f) = None ∧
  field_options f = no_options ∧
  by_class f = true ∧
  _default f = (if is_scalar_hint h then default else VNone) ∧
  (converters = [] → field_depth f = hint_depth h).
Proof.
  revert converters default n f Hf.
  induction h as [t| | |a IH] using hint_induction; intros converters default n f;
    cbn -[is_scalar_hint].
  - destruct (is_scalar_hint (HType t)); [by intros [= <-]|].
    destruct (find _ converters) as [c|] eqn:Hc; [intros [= <-]|].
    + repeat split; try (intros ->; done).
    + destruct (is_message t); [by intros [= <-] | done].
  - destruct (find _ converters) as [c|] eqn:Hc; [intros [= <-]|done].
    repeat split; try (intros ->; done).
  - destruct (find _ converters) as [c|] eqn:Hc; [intros [= <-]|done].
    repeat split; try (intros ->; done).
  - destruct (find _ converters) as [c|] eqn:Hc; [intros [= <-]|].
    + repeat split; try (intros ->; done).
    + destruct (create_field_from_type_hint a [] VNone None) as [items|] eqn:Hitems; [|done].
      cbn. intros [= <-]. destruct (IH _ _ _ _ Hitems) as (Hn & _ & _ & Hc' & _ & Hd).
      cbn. rewrite Hc', Hn, (Hd eq_refl). by rewrite bool_decide_true.
Qed.

Lemma inferred_field_shape_witness :
  field_depth
    (RepeatField (named "names")
       (RepeatField unnamed (Field unnamed (inl TStr) VNone no_options) no_options) no_options)
  = hint_depth (HList (Some (HList (Some (HType TStr))))).
Proof.
  exact (proj2 (proj2 (proj2 (proj2 (proj2
           (inferred_field_shape (HList (Some (HList (Some (HType TStr))))) [] (VStr "x")
              (Some "names") _ eq_refl))))) eq_refl).
Defined.
